(** * The JIT arena allocator (src/jit/alloc.h)

    A shallow embedding of [ArenaAllocator] and of its inline
    [allocateMemory], followed by the properties of the bump allocation
    that the design document states.

    The target is the 64-bit one: [size_t] and [BYTE*] are 64-bit words,
    held in [Z] with the wrap-around written out. *)

From Stdlib Require Import ZArith List Bool Lia.
Import ListNotations.
Open Scope Z_scope.

(** ** Machine words *)

Module Word.

Definition modulus : Z := 2 ^ 64.

(** A [size_t] or a [BYTE*]: a value in [0, 2^64). *)
Definition in_range (z : Z) : Prop := 0 <= z < modulus.

Definition wrap (z : Z) : Z := z mod modulus.

(** [p + n] and [p - n] on [BYTE*] (and on [size_t]). *)
Definition add (p n : Z) : Z := wrap (p + n).
Definition sub (p n : Z) : Z := wrap (p - n).

(** [~x] on a [size_t]. *)
Definition not (x : Z) : Z := wrap (Z.lnot x).

End Word.

Definition nullptr : Z := 0.

(** [sizeof(size_t)] *)
Definition sizeof_size_t : Z := 8.

(** Modelled from the spec: [roundUp] is declared in a JIT header that is
    not part of src/.  "Rounds size up to the native pointer-width
    granularity": the least multiple of [mult] that is no smaller than
    [size], as the [size_t] the caller stores it in. *)
Definition roundUp (size mult : Z) : Z :=
  Word.wrap (mult * ((size + (mult - 1)) / mult)).

(** The same rounding the way C writes it for a power of two,
    [(size + (mult - 1)) & ~(mult - 1)]. *)
Definition roundUp_bits (size mult : Z) : Z :=
  Z.land (Word.add size (mult - 1)) (Word.not (mult - 1)).

Definition aligned (p : Z) : Prop := p mod sizeof_size_t = 0.

(** ** The data of the class *)

(** [struct PageDescriptor]; [m_contents] is the flexible array that
    follows the four header words. *)
Record PageDescriptor : Type := mkPage {
  m_next : Z;
  m_previous : Z;
  m_pageBytes : Z;   (* # of bytes allocated *)
  m_usedBytes : Z    (* # of bytes actually used *)
}.

(** [sizeof(PageDescriptor)]: two pointers and two [size_t]. *)
Definition sizeof_PageDescriptor : Z := 4 * sizeof_size_t.

(** [MIN_PAGE_SIZE = sizeof(PageDescriptor)] *)
Definition MIN_PAGE_SIZE : Z := sizeof_PageDescriptor.

(** [page->m_contents] for the descriptor at address [page]. *)
Definition m_contents (page : Z) : Z := page + sizeof_PageDescriptor.

(** The data members of [ArenaAllocator]. *)
Record ArenaAllocator : Type := mkArena {
  m_memoryManager : Z;
  m_firstPage : Z;
  m_lastPage : Z;
  m_nextFreeByte : Z;
  m_lastFreeByte : Z
}.

(** What the process around the arena answers and remembers: the backing
    store of the pages and the process heap that the fault-injection probe
    goes to.  The replies are consumed one per request, [nullptr] being a
    refusal. *)
Record Host : Type := mkHost {
  pageReplies : list Z;
  releasedPages : list Z;
  probeReplies : list Z;
  processHeap : list Z
}.

(** The arena object, the page descriptors it owns (first page first,
    each with its address), the bytes of the memory outside the arena
    object and the descriptors, and the host. *)
Record World : Type := mkWorld {
  this : ArenaAllocator;
  pages : list (Z * PageDescriptor);
  bytes : Z -> Z;
  host : Host
}.

(** What is fixed for the process: the build flavour and the
    configuration. *)
Record Build : Type := mkBuild {
  DEBUG : bool;
  OS_page_size : Z;
  s_defaultPageSize : Z;
  ShouldInjectFault : Z;         (* JitConfig.ShouldInjectFault() *)
  UninitializedWord_char : Z     (* UninitializedWord<char>(nullptr) *)
}.

(** [DEFAULT_PAGE_SIZE = 16 * OS_page_size] *)
Definition DEFAULT_PAGE_SIZE (cfg : Build) : Z := 16 * OS_page_size cfg.

Definition set_nextFreeByte (a : ArenaAllocator) (p : Z) : ArenaAllocator :=
  mkArena (m_memoryManager a) (m_firstPage a) (m_lastPage a) p (m_lastFreeByte a).

Definition set_this (w : World) (a : ArenaAllocator) : World :=
  mkWorld a (pages w) (bytes w) (host w).

Definition set_pages (w : World) (ps : list (Z * PageDescriptor)) : World :=
  mkWorld (this w) ps (bytes w) (host w).

Definition set_bytes (w : World) (m : Z -> Z) : World :=
  mkWorld (this w) (pages w) m (host w).

Definition set_host (w : World) (h : Host) : World :=
  mkWorld (this w) (pages w) (bytes w) h.

(** ** Running a member function *)

(** A call returns, or leaves through [NOMEM()], or stops in a failed
    [assert], or dies of an access violation; the world it leaves behind
    is kept in each case. *)
Inductive Outcome (A : Type) : Type :=
| Return (a : A) (w : World)
| NOMEM (w : World)
| AssertAbort (w : World)
| Fault (w : World).

Arguments Return {A} a w.
Arguments NOMEM {A} w.
Arguments AssertAbort {A} w.
Arguments Fault {A} w.

Definition M (A : Type) : Type := World -> Outcome A.

Definition ret {A} (a : A) : M A := fun w => Return a w.

Definition bind {A B} (m : M A) (k : A -> M B) : M B :=
  fun w =>
    match m w with
    | Return a w' => k a w'
    | NOMEM w' => NOMEM w'
    | AssertAbort w' => AssertAbort w'
    | Fault w' => Fault w'
    end.

Notation "x <- m ;; k" := (bind m (fun x => k))
  (at level 61, m at next level, right associativity).
Notation "m ;; k" := (bind m (fun _ => k))
  (at level 61, right associativity).

Definition get_this : M ArenaAllocator := fun w => Return (this w) w.
Definition put_this (a : ArenaAllocator) : M unit :=
  fun w => Return tt (set_this w a).
Definition throw_NOMEM {A} : M A := fun w => NOMEM w.
Definition when (c : bool) (m : M unit) : M unit := if c then m else ret tt.

Definition outcome_world {A} (o : Outcome A) : World :=
  match o with Return _ w | NOMEM w | AssertAbort w | Fault w => w end.

(** ** The collaborators of the arena *)

Definition take_pageReply (h : Host) : Host :=
  mkHost (tl (pageReplies h)) (releasedPages h) (probeReplies h) (processHeap h).

Definition take_probeReply (h : Host) (live : list Z) : Host :=
  mkHost (pageReplies h) (releasedPages h) (tl (probeReplies h)) live.

Definition set_processHeap (h : Host) (live : list Z) : Host :=
  mkHost (pageReplies h) (releasedPages h) (probeReplies h) live.

Definition release_page (h : Host) (block : Z) : Host :=
  mkHost (pageReplies h) (releasedPages h ++ [block]) (probeReplies h) (processHeap h).

Fixpoint remove_block (p : Z) (live : list Z) : list Z :=
  match live with
  | [] => []
  | q :: rest => if q =? p then rest else q :: remove_block p rest
  end.

(** [ClrAllocInProcessHeap(0, S_SIZE_T(n))]: the process heap answers with
    a block, which is live from then on, or with [nullptr]. *)
Definition ClrAllocInProcessHeap (n : Z) : M Z :=
  fun w =>
    let h := host w in
    match probeReplies h with
    | [] => Return nullptr w
    | p :: _ =>
        Return p (set_host w (take_probeReply h
                    (if p =? nullptr then processHeap h else p :: processHeap h)))
    end.

(** [ClrFreeInProcessHeap(0, p)] *)
Definition ClrFreeInProcessHeap (p : Z) : M unit :=
  fun w =>
    Return tt (set_host w (set_processHeap (host w)
                             (remove_block p (processHeap (host w))))).

(** [memset(block, c, size)]: the [size] bytes from [block] on are set to
    [c].  A range that runs past the last address of the address space
    cannot be written: the call dies of an access violation.  Any other
    range is taken to be writable, as the caller takes it to be. *)
Definition memset (block c size : Z) : M unit :=
  fun w =>
    if Word.modulus <? block + size then Fault w
    else
      Return tt (set_bytes w (fun a =>
        if (block <=? a) && (a <? block + size) then c else bytes w a)).

(** A block of [size] bytes at [b] lies inside the address space and is
    not null. *)
Definition block_fits (b size : Z) : bool :=
  (0 <? b) && (b + size <? Word.modulus).

(** Modelled from the spec: [allocateHostMemory] is defined outside src/.
    The backing store answers a request for [size] bytes with a
    pointer or with null ("allocate(size) -> pointer-or-null"); an answer
    that is not a block of that size counts as a refusal. *)
Definition allocateHostMemory (size : Z) : M Z :=
  fun w =>
    let h := host w in
    match pageReplies h with
    | [] => Return nullptr w
    | b :: _ =>
        Return (if block_fits b size then b else nullptr)
               (set_host w (take_pageReply h))
    end.

(** Modelled from the spec: [freeHostMemory] is defined outside src/; the
    block goes back to the backing store. *)
Definition freeHostMemory (block : Z) : M unit :=
  fun w => Return tt (set_host w (release_page (host w) block)).

(** ** The page chain *)

Fixpoint update_last {A} (f : A -> A) (l : list A) : list A :=
  match l with
  | [] => []
  | [x] => [f x]
  | x :: rest => x :: update_last f rest
  end.

Definition last_page (ps : list (Z * PageDescriptor)) : option (Z * PageDescriptor) :=
  last (map Some ps) None.

(** The outgoing page's [m_usedBytes] becomes [cursor - m_contents]. *)
Definition record_usedBytes (cursor : Z) (ps : list (Z * PageDescriptor))
  : list (Z * PageDescriptor) :=
  update_last (fun p =>
    (fst p, mkPage (m_next (snd p)) (m_previous (snd p)) (m_pageBytes (snd p))
                   (cursor - m_contents (fst p)))) ps.

(** The new page is appended to the chain and linked both ways. *)
Definition link_page (newPage pageSize previous : Z) (ps : list (Z * PageDescriptor))
  : list (Z * PageDescriptor) :=
  update_last (fun p =>
    (fst p, mkPage newPage (m_previous (snd p)) (m_pageBytes (snd p))
                   (m_usedBytes (snd p)))) ps
  ++ [(newPage, mkPage nullptr previous pageSize 0)].

Definition modify_pages (f : list (Z * PageDescriptor) -> list (Z * PageDescriptor))
  : M unit :=
  fun w => Return tt (set_pages w (f (pages w))).

Section Arena.

Variable cfg : Build.

(** [assert(c)]: the JIT's assert is compiled in the DEBUG build only,
    where a false condition stops the run. *)
Definition assert (c : bool) : M unit :=
  fun w => if DEBUG cfg && negb c then AssertAbort w else Return tt w.

(** Modelled from the spec: [isInitialized] is defined outside src/.  The
    arena is initialized from its construction with a backing store until
    [destroy] resets that reference. *)
Definition isInitialized : M bool :=
  fun w => Return (negb (m_memoryManager (this w) =? nullptr)) w.

(** Modelled from the spec: [allocateNewPage] is defined outside src/
    (section 4.2, page-chain growth).  [allocateMemory] calls it after it
    has already added [size] to [m_nextFreeByte], so the cursor the spec
    speaks of, the one the request did not fit at, is [m_nextFreeByte -
    size].  In the order of the spec: the outgoing page's bytes actually
    used, up to that cursor, are recorded, the capacity is
    [max(defaultPageSize, size + pageHeaderOverhead)], the storage is
    requested; a refusal is [NOMEM()] when [canThrow] and a null result
    otherwise, and nothing more is written; on success the page is linked
    as the last page, the window is the page's storage after the header,
    less the block carved at its start, and that block is returned. *)
Definition allocateNewPage (size : Z) (canThrow : bool) : M Z :=
  a <- get_this ;;
  let cursor := Word.sub (m_nextFreeByte a) size in
  modify_pages (record_usedBytes cursor) ;;
  let pageSize := Z.max (s_defaultPageSize cfg) (size + sizeof_PageDescriptor) in
  newPage <- allocateHostMemory pageSize ;;
  if newPage =? nullptr then
    if canThrow then throw_NOMEM else ret nullptr
  else
    modify_pages (link_page newPage pageSize (m_lastPage a)) ;;
    put_this (mkArena (m_memoryManager a)
                (if m_lastPage a =? nullptr then newPage else m_firstPage a)
                newPage
                (m_contents newPage + size)
                (newPage + pageSize)) ;;
    ret (m_contents newPage).

(** [ArenaAllocator::allocateMemory] (alloc.h, lines 100 to 138). *)
Definition allocateMemory (size : Z) : M Z :=
  init <- isInitialized ;;
  assert init ;;
  assert (negb (size =? 0)) ;;
  (* Ensure that we always allocate in pointer sized increments. *)
  let size := roundUp size sizeof_size_t in
  when (DEBUG cfg)
    (if negb (ShouldInjectFault cfg =? 0) then
       p <- ClrAllocInProcessHeap 1 ;;
       if negb (p =? nullptr) then ClrFreeInProcessHeap p else throw_NOMEM
     else ret tt) ;;
  a <- get_this ;;
  let block := m_nextFreeByte a in
  put_this (set_nextFreeByte a (Word.add (m_nextFreeByte a) size)) ;;
  a <- get_this ;;
  block <- (if m_lastFreeByte a <? m_nextFreeByte a
            then allocateNewPage size true
            else ret block) ;;
  when (DEBUG cfg) (memset block (UninitializedWord_char cfg) size) ;;
  ret block.

End Arena.

(** Modelled from the spec: the constructor [ArenaAllocator()] is defined
    outside src/.  An arena that is not initialized has every member
    null. *)
Definition ArenaAllocator_default : ArenaAllocator :=
  mkArena nullptr nullptr nullptr nullptr nullptr.

(** Modelled from the spec: the constructor that takes the memory
    manager is defined outside src/.  The
    arena holds the reference to its backing store and has allocated
    nothing yet: no page, and a null window, since cursor and limit "when
    non-null, always point within lastPage's storage". *)
Definition ArenaAllocator_new (memoryManager : Z) : ArenaAllocator :=
  mkArena memoryManager nullptr nullptr nullptr nullptr.

(** The walk of [destroy] over the chain, first page first. *)
Fixpoint release_chain (ps : list (Z * PageDescriptor)) : M unit :=
  match ps with
  | [] => ret tt
  | page :: rest => freeHostMemory (fst page) ;; release_chain rest
  end.

(** Modelled from the spec: [destroy] is defined outside src/.  It "walks
    the full page chain from firstPage to lastPage, releasing each page's
    storage", "then resets all Arena fields", the reference to the backing
    store included. *)
Definition destroy : M unit :=
  fun w =>
    (release_chain (pages w) ;;
     modify_pages (fun _ => []) ;;
     put_this ArenaAllocator_default) w.

(** Modelled from the spec: [getTotalBytesAllocated] is defined outside
    src/; "allocated" counts full page capacities ever created. *)
Definition getTotalBytesAllocated (w : World) : Z :=
  fold_right Z.add 0 (map (fun p => m_pageBytes (snd p)) (pages w)).

(** Modelled from the spec: [getTotalBytesUsed] is defined outside src/;
    "used" counts actually-consumed bytes including the live page's
    current high-water mark ([cursor - pageStart]). *)
Definition getTotalBytesUsed (w : World) : Z :=
  fold_right Z.add 0
    (map (fun p => m_usedBytes (snd p))
         (record_usedBytes (m_nextFreeByte (this w)) (pages w))).

(** ** Sample runs *)

Definition release_build : Build := mkBuild false 4096 65536 0 221.
Definition debug_build (inject : Z) : Build := mkBuild true 4096 65536 inject 221.

Definition fresh_world (replies probes : list Z) : World :=
  mkWorld (ArenaAllocator_new 1) [] (fun _ => 0) (mkHost replies [] probes []).

Definition returned {A} (o : Outcome A) : option A :=
  match o with Return a _ => Some a | _ => None end.

(** ** What the properties speak of *)

(** The request as line 106 leaves it. *)
Definition rounded (size : Z) : Z := roundUp size sizeof_size_t.

(** The test of line 128 comes out false: the request is served from the
    current window. *)
Definition fits_window (w : World) (size : Z) : bool :=
  Word.add (m_nextFreeByte (this w)) (rounded size) <=? m_lastFreeByte (this w).

(** Fault injection is on in this build. *)
Definition injecting (cfg : Build) : bool :=
  DEBUG cfg && negb (ShouldInjectFault cfg =? 0).

(** The probe of lines 109 to 122 runs and the process heap refuses it. *)
Definition fault_fires (cfg : Build) (w : World) : bool :=
  injecting cfg && (hd nullptr (probeReplies (host w)) =? nullptr).

(** Lines 108 to 123 on their own. *)
Definition faultInjection (cfg : Build) : M unit :=
  when (DEBUG cfg)
    (if negb (ShouldInjectFault cfg =? 0) then
       p <- ClrAllocInProcessHeap 1 ;;
       if negb (p =? nullptr) then ClrFreeInProcessHeap p else throw_NOMEM
     else ret tt).

(** The world once the probe has been made and its block, if any, freed:
    one reply of the process heap is used up, and the heap holds what it
    held. *)
Definition probed (w : World) : World :=
  set_host w (take_probeReply (host w) (processHeap (host w))).

Definition after_probe (cfg : Build) (w : World) : World :=
  if injecting cfg then probed w else w.


(** The world once the DEBUG build has stamped the block. *)
Definition stamped (cfg : Build) (block size : Z) (w : World) : World :=
  if DEBUG cfg then
    set_bytes w (fun a =>
      if (block <=? a) && (a <? block + size) then UninitializedWord_char cfg
      else bytes w a)
  else w.

(** The capacity page growth asks the backing store for. *)
Definition new_page_bytes (cfg : Build) (size : Z) : Z :=
  Z.max (s_defaultPageSize cfg) (size + sizeof_PageDescriptor).

(** The page the backing store supplies for the coming growth, if it
    supplies one. *)
Definition page_supplied (cfg : Build) (size : Z) (w : World) : option Z :=
  match pageReplies (host w) with
  | [] => None
  | b :: _ => if block_fits b (new_page_bytes cfg size) then Some b else None
  end.

(** The world [allocateNewPage] is entered in from line 130: the cursor
    already moved past the limit. *)
Definition advanced (w : World) (size : Z) : World :=
  set_this w (set_nextFreeByte (this w) (Word.add (m_nextFreeByte (this w)) size)).

(** The stamp of line 134 runs past the end of the address space. *)
Definition stamp_faults (cfg : Build) (block size : Z) : bool :=
  DEBUG cfg && (Word.modulus <? block + size).

(** What the DEBUG build adds to a call that got its block: the stamp on
    the block, or the access violation of a stamp that cannot be
    written. *)
Definition stamp_returned (cfg : Build) (size : Z) (o : Outcome Z) : Outcome Z :=
  match o with
  | Return block w =>
      if stamp_faults cfg block size then Fault w
      else Return block (stamped cfg block size w)
  | NOMEM w => NOMEM w
  | AssertAbort w => AssertAbort w
  | Fault w => Fault w
  end.

(** Lines 125 to 131 on their own, for a size already rounded. *)
Definition bump (cfg : Build) (size : Z) (w : World) : Outcome Z :=
  if m_lastFreeByte (this w) <? Word.add (m_nextFreeByte (this w)) size then
    allocateNewPage cfg size true (advanced w size)
  else
    Return (m_nextFreeByte (this w)) (advanced w size).

(** Lines 125 to 137 on their own, for a size already rounded. *)
Definition serve (cfg : Build) (size : Z) (w : World) : Outcome Z :=
  stamp_returned cfg size (bump cfg size w).

(** The arena after a page growth that the backing store served with the
    block at [b], and after one it refused. *)
Definition grown (cfg : Build) (size : Z) (w : World) (b : Z) : World :=
  let cursor := Word.sub (m_nextFreeByte (this w)) size in
  mkWorld
    (mkArena (m_memoryManager (this w))
       (if m_lastPage (this w) =? nullptr then b else m_firstPage (this w))
       b (m_contents b + size) (b + new_page_bytes cfg size))
    (link_page b (new_page_bytes cfg size) (m_lastPage (this w))
       (record_usedBytes cursor (pages w)))
    (bytes w)
    (take_pageReply (host w)).

Definition refused (size : Z) (w : World) : World :=
  let cursor := Word.sub (m_nextFreeByte (this w)) size in
  mkWorld (this w)
    (record_usedBytes cursor (pages w))
    (bytes w)
    (match pageReplies (host w) with
     | [] => host w
     | _ :: _ => take_pageReply (host w)
     end).

(** The invariant written next to the two window pointers (lines 46 to
    48): when non-null they point into the last page. *)
Definition window_in_last_page (w : World) : Prop :=
  m_nextFreeByte (this w) <> nullptr ->
  m_lastFreeByte (this w) <> nullptr ->
  exists page,
    last_page (pages w) = Some page /\
    fst page = m_lastPage (this w) /\
    m_contents (fst page) <= m_nextFreeByte (this w) /\
    m_nextFreeByte (this w) <= m_lastFreeByte (this w) /\
    m_lastFreeByte (this w) <= m_contents (fst page) + m_pageBytes (snd page).

Definition window_in_last_pageb (w : World) : bool :=
  (m_nextFreeByte (this w) =? nullptr) ||
  (m_lastFreeByte (this w) =? nullptr) ||
  match last_page (pages w) with
  | None => false
  | Some page =>
      (fst page =? m_lastPage (this w)) &&
      (m_contents (fst page) <=? m_nextFreeByte (this w)) &&
      (m_nextFreeByte (this w) <=? m_lastFreeByte (this w)) &&
      (m_lastFreeByte (this w) <=? m_contents (fst page) + m_pageBytes (snd page))
  end.

(** The arena has no page yet exactly when its window is null, and the
    pointers are machine words. *)
Definition pointers_ok (w : World) : Prop :=
  Word.in_range (m_nextFreeByte (this w)) /\
  Word.in_range (m_lastFreeByte (this w)) /\
  (m_nextFreeByte (this w) = nullptr -> m_lastFreeByte (this w) = nullptr).


(** The arena after its first allocation of eight bytes from a backing
    store that hands out the block at 65536, refuses the next request and
    would then hand out the block at 262144. *)
Definition one_page_world : World :=
  mkWorld (mkArena 1 65536 65536 65576 131072)
          [(65536, mkPage nullptr nullptr 65536 0)]
          (fun _ => 0)
          (mkHost [0; 262144] [] [] []).

(** The same arena in front of a backing store that serves the next
    request. *)
Definition served_world : World :=
  mkWorld (mkArena 1 65536 65536 65576 131072)
          [(65536, mkPage nullptr nullptr 65536 0)]
          (fun _ => 0)
          (mkHost [262144] [] [7] []).

(** ** A caller that allocates in a row *)

(** One [allocateMemory] per size, in order; the blocks come back in the
    same order.  A call that does not return ends the row. *)
Fixpoint allocateEach (cfg : Build) (sizes : list Z) : M (list Z) :=
  match sizes with
  | [] => ret []
  | size :: rest =>
      block <- allocateMemory cfg size ;;
      blocks <- allocateEach cfg rest ;;
      ret (block :: blocks)
  end.

(** The addresses of blocks of the given lengths laid end to end from
    [start]. *)
Fixpoint laid_out (start : Z) (lengths : list Z) : list Z :=
  match lengths with
  | [] => []
  | n :: rest => start :: laid_out (start + n) rest
  end.

Definition total (lengths : list Z) : Z := fold_right Z.add 0 lengths.


(** ** Word arithmetic *)

Lemma modulus_pos : 0 < Word.modulus.
Proof. reflexivity. Qed.

Lemma wrap_range z : Word.in_range (Word.wrap z).
Proof. unfold Word.in_range, Word.wrap. apply Z.mod_pos_bound, modulus_pos. Qed.

Lemma wrap_small z : Word.in_range z -> Word.wrap z = z.
Proof. unfold Word.in_range, Word.wrap. intros H. now apply Z.mod_small. Qed.

Lemma add_range p n : Word.in_range (Word.add p n).
Proof. apply wrap_range. Qed.

Lemma add_exact p n : Word.in_range (p + n) -> Word.add p n = p + n.
Proof. apply wrap_small. Qed.

Lemma add_zero p : Word.in_range p -> Word.add p 0 = p.
Proof. intros H. unfold Word.add. rewrite Z.add_0_r. now apply wrap_small. Qed.


Lemma add_sub p n : Word.in_range n -> Word.sub (Word.add p n) p = n.
Proof.
  intros H. unfold Word.sub, Word.add, Word.wrap.
  rewrite Zminus_mod_idemp_l.
  replace (p + n - p) with n by lia.
  now apply Z.mod_small.
Qed.

Lemma modulus_aligned : Word.modulus = sizeof_size_t * 2 ^ 61.
Proof. reflexivity. Qed.

Lemma wrap_aligned z : aligned z -> aligned (Word.wrap z).
Proof.
  unfold aligned, Word.wrap, sizeof_size_t. intros H.
  rewrite (Z.mod_eq z Word.modulus) by (pose proof modulus_pos; lia).
  replace (z - Word.modulus * (z / Word.modulus))
    with (z + (- (2 ^ 61 * (z / Word.modulus))) * 8)
    by (unfold Word.modulus; lia).
  rewrite Z.mod_add by lia. exact H.
Qed.

Lemma aligned_plus p n : aligned p -> aligned n -> aligned (p + n).
Proof.
  unfold aligned. intros Hp Hn.
  rewrite Z.add_mod, Hp, Hn by (unfold sizeof_size_t; lia). reflexivity.
Qed.

Lemma add_aligned p n : aligned p -> aligned n -> aligned (Word.add p n).
Proof. intros Hp Hn. apply wrap_aligned, aligned_plus; assumption. Qed.

Lemma roundUp_range size : Word.in_range (roundUp size sizeof_size_t).
Proof. apply wrap_range. Qed.

Lemma roundUp_aligned size : aligned (roundUp size sizeof_size_t).
Proof.
  unfold roundUp. apply wrap_aligned. unfold aligned.
  rewrite Z.mul_comm. apply Z.mod_mul. unfold sizeof_size_t; lia.
Qed.

Lemma roundUp_zero : roundUp 0 sizeof_size_t = 0.
Proof. reflexivity. Qed.

(** Below the last multiple of the pointer width nothing wraps: the
    result is the least multiple that is no smaller than the size. *)
Lemma roundUp_least size :
  0 <= size <= Word.modulus - sizeof_size_t ->
  let r := roundUp size sizeof_size_t in
  size <= r < size + sizeof_size_t /\ aligned r.
Proof.
  intros H r. split; [|apply roundUp_aligned].
  unfold r, roundUp. unfold sizeof_size_t in *.
  assert (Hd : size + (8 - 1) = 8 * ((size + (8 - 1)) / 8) + (size + (8 - 1)) mod 8)
    by (apply Z.div_mod; lia).
  assert (Hm : 0 <= (size + (8 - 1)) mod 8 < 8) by (apply Z.mod_pos_bound; lia).
  rewrite wrap_small; [lia|].
  unfold Word.in_range. unfold Word.modulus in *. lia.
Qed.

(** The last seven sizes have no multiple of the pointer width left in a
    [size_t]: the rounding wraps to zero. *)
Lemma roundUp_wraps size :
  Word.modulus - sizeof_size_t < size < Word.modulus ->
  roundUp size sizeof_size_t = 0.
Proof.
  intros H. unfold roundUp, sizeof_size_t in *.
  assert (Hq : (size + (8 - 1)) / 8 = 2 ^ 61).
  { symmetry. apply Z.div_unique with (r := size + 7 - 2 ^ 64).
    - left. unfold Word.modulus in H. lia.
    - unfold Word.modulus in H. lia. }
  rewrite Hq. reflexivity.
Qed.

(** Clearing the low bits of a word is rounding it down to the pointer
    width. *)
Lemma land_clear_low x :
  Word.in_range x ->
  Z.land x (Word.not (sizeof_size_t - 1)) = sizeof_size_t * (x / sizeof_size_t).
Proof.
  intros Hx.
  assert (Hc : Word.not (sizeof_size_t - 1) = Z.land (Z.ones 64) (Z.lnot (Z.ones 3)))
    by reflexivity.
  rewrite Hc, Z.land_assoc, Z.land_ones by lia.
  change (2 ^ 64) with Word.modulus.
  rewrite Z.mod_small by exact Hx.
  rewrite <- Z.ldiff_land, Z.ldiff_ones_r by lia.
  rewrite Z.shiftr_div_pow2, Z.shiftl_mul_pow2 by lia.
  change (2 ^ 3) with sizeof_size_t. lia.
Qed.

(** The rounding of the spec and the one C computes with a mask agree on
    every [size_t], the wrapping ones included. *)
Lemma roundUp_bits_eq size :
  Word.in_range size -> roundUp_bits size sizeof_size_t = roundUp size sizeof_size_t.
Proof.
  intros Hs. unfold roundUp_bits.
  rewrite land_clear_low by apply add_range.
  unfold roundUp, Word.add, Word.wrap, sizeof_size_t.
  set (y := size + (8 - 1)).
  assert (Hy : 0 <= y) by (unfold y, Word.in_range in *; lia).
  pose proof modulus_pos as Hm.
  apply Z.mod_unique with (q := y / Word.modulus).
  - left.
    pose proof (Z.mod_pos_bound y Word.modulus Hm).
    pose proof (Z.mul_div_le (y mod Word.modulus) 8 ltac:(lia)).
    pose proof (Z.div_pos (y mod Word.modulus) 8 ltac:(lia) ltac:(lia)).
    lia.
  - rewrite (Z.mod_eq y Word.modulus) by lia.
    replace (y - Word.modulus * (y / Word.modulus))
      with (y + (- (2 ^ 61 * (y / Word.modulus))) * 8) by (unfold Word.modulus; lia).
    rewrite Z.div_add by lia. unfold Word.modulus. lia.
Qed.

(** ** The sample worlds are reached from a constructed arena *)

Lemma one_page_world_reached :
  allocateMemory release_build 8 (fresh_world [65536; 0; 262144] []) =
  Return 65568 one_page_world.
Proof. reflexivity. Qed.

Lemma served_world_reached :
  allocateMemory release_build 8 (fresh_world [65536; 262144] [7]) =
  Return 65568 served_world.
Proof. reflexivity. Qed.

(** ** The steps of [allocateMemory] *)

Lemma update_last_length {A} (f : A -> A) (l : list A) :
  length (update_last f l) = length l.
Proof.
  induction l as [|x [|y rest] IH]; simpl in *; auto.
Qed.

Lemma last_page_app ps p : last_page (ps ++ [p]) = Some p.
Proof.
  unfold last_page. rewrite map_app. simpl. apply last_last.
Qed.

Lemma update_last_cons {A} (f : A -> A) x y (l : list A) :
  update_last f (x :: y :: l) = x :: update_last f (y :: l).
Proof. reflexivity. Qed.

Lemma update_last_nonempty {A} (f : A -> A) x (l : list A) :
  exists z l', update_last f (x :: l) = z :: l'.
Proof. destruct l; simpl; eauto. Qed.

Lemma last_page_update_last f ps :
  last_page (update_last f ps) = option_map f (last_page ps).
Proof.
  unfold last_page.
  induction ps as [|x rest IH]; [reflexivity|].
  destruct rest as [|y rest]; [reflexivity|].
  rewrite update_last_cons.
  destruct (update_last_nonempty f y rest) as (z & l' & E).
  rewrite E in *. exact IH.
Qed.

Lemma update_last_map {A B} (g : A -> B) (f : A -> A) (l : list A) :
  (forall x, g (f x) = g x) -> map g (update_last f l) = map g l.
Proof.
  intros Hg. induction l as [|x rest IH]; [reflexivity|].
  destruct rest as [|y rest]; [simpl; now rewrite Hg|].
  rewrite update_last_cons, (map_cons g x (y :: rest)), <- IH. reflexivity.
Qed.

Lemma update_last_twice {A} (f g : A -> A) (l : list A) :
  update_last f (update_last g l) = update_last (fun x => f (g x)) l.
Proof.
  induction l as [|x rest IH]; [reflexivity|].
  destruct rest as [|y rest]; [reflexivity|].
  rewrite !update_last_cons.
  destruct (update_last_nonempty g y rest) as (z & l' & E).
  rewrite E in *. rewrite update_last_cons, IH. reflexivity.
Qed.

Lemma record_usedBytes_twice c ps :
  record_usedBytes c (record_usedBytes c ps) = record_usedBytes c ps.
Proof.
  unfold record_usedBytes. rewrite update_last_twice. reflexivity.
Qed.

Lemma block_fits_nonnull b size : block_fits b size = true -> (b =? nullptr) = false.
Proof.
  unfold block_fits, nullptr. intros H.
  apply andb_true_iff in H. destruct H as [H _].
  apply Z.ltb_lt in H. apply Z.eqb_neq. lia.
Qed.

Lemma allocateNewPage_supplied cfg size canThrow w b :
  page_supplied cfg size w = Some b ->
  allocateNewPage cfg size canThrow w = Return (m_contents b) (grown cfg size w b).
Proof.
  unfold page_supplied. intros H.
  destruct (pageReplies (host w)) as [|b' rest] eqn:E; [discriminate|].
  destruct (block_fits b' (new_page_bytes cfg size)) eqn:F; [|discriminate].
  injection H as ->.
  unfold allocateNewPage, bind, get_this, put_this, modify_pages,
    allocateHostMemory, ret; simpl.
  rewrite E. fold (new_page_bytes cfg size). rewrite F.
  rewrite (block_fits_nonnull _ _ F). reflexivity.
Qed.

Lemma allocateNewPage_refused cfg size w :
  page_supplied cfg size w = None ->
  allocateNewPage cfg size true w = NOMEM (refused size w).
Proof.
  unfold page_supplied. intros H.
  unfold allocateNewPage, bind, get_this, put_this, modify_pages,
    allocateHostMemory, ret, throw_NOMEM, refused; simpl.
  fold (new_page_bytes cfg size).
  destruct (pageReplies (host w)) as [|b' rest] eqn:E; simpl.
  - reflexivity.
  - destruct (block_fits b' (new_page_bytes cfg size)); [discriminate|].
    reflexivity.
Qed.

Lemma faultInjection_passes cfg w :
  fault_fires cfg w = false -> faultInjection cfg w = Return tt (after_probe cfg w).
Proof.
  unfold fault_fires, after_probe, injecting, faultInjection, when.
  destruct (DEBUG cfg); simpl; [|reflexivity].
  destruct (ShouldInjectFault cfg =? 0); simpl; [reflexivity|].
  unfold bind, ClrAllocInProcessHeap, ClrFreeInProcessHeap, probed.
  destruct (probeReplies (host w)) as [|p rest] eqn:E; simpl.
  - discriminate.
  - intros Hp. rewrite Hp. simpl. unfold take_probeReply, set_processHeap, set_host.
    simpl. rewrite E, Z.eqb_refl. reflexivity.
Qed.

Lemma faultInjection_fires cfg w :
  fault_fires cfg w = true ->
  exists w', faultInjection cfg w = NOMEM w' /\
             this w' = this w /\ pages w' = pages w /\ bytes w' = bytes w /\
             pageReplies (host w') = pageReplies (host w) /\
             processHeap (host w') = processHeap (host w).
Proof.
  unfold fault_fires, injecting, faultInjection, when.
  destruct (DEBUG cfg); simpl; [|discriminate].
  destruct (ShouldInjectFault cfg =? 0); simpl; [discriminate|].
  unfold bind, ClrAllocInProcessHeap, throw_NOMEM.
  destruct (probeReplies (host w)) as [|p rest] eqn:E; simpl.
  - intros _. exists w. repeat split; reflexivity.
  - intros Hp. rewrite Hp. simpl. eexists. split; [reflexivity|].
    simpl. repeat split; reflexivity.
Qed.

Lemma stamped_release cfg block size w : DEBUG cfg = false -> stamped cfg block size w = w.
Proof. unfold stamped. now intros ->. Qed.

Lemma stamp_faults_release cfg block size :
  DEBUG cfg = false -> stamp_faults cfg block size = false.
Proof. unfold stamp_faults. now intros ->. Qed.

Lemma stamp_faults_inside cfg block size :
  block + size <= Word.modulus -> stamp_faults cfg block size = false.
Proof.
  intros H. unfold stamp_faults.
  destruct (Z.ltb_spec Word.modulus (block + size)); [lia|apply andb_false_r].
Qed.

(** [allocateMemory] is its three parts in a row: the asserts, the probe,
    the bump allocation with the stamping. *)
Lemma allocateMemory_steps cfg size w :
  m_memoryManager (this w) <> nullptr -> size <> 0 ->
  allocateMemory cfg size w =
    match faultInjection cfg w with
    | Return _ w0 => serve cfg (rounded size) w0
    | NOMEM w' => NOMEM w'
    | AssertAbort w' => AssertAbort w'
    | Fault w' => Fault w'
    end.
Proof.
  intros Hinit Hsize.
  unfold allocateMemory, bind at 1 2 3, isInitialized, assert.
  apply Z.eqb_neq in Hinit, Hsize. rewrite Hinit, Hsize. simpl.
  rewrite !andb_false_r.
  fold (faultInjection cfg). fold (rounded size).
  unfold bind at 1.
  destruct (faultInjection cfg w) as [[] w0|w0|w0|w0]; try reflexivity.
  unfold serve, bump, stamp_returned, stamp_faults, bind, get_this, put_this,
    advanced, ret, when, stamped, memset; simpl.
  destruct (m_lastFreeByte (this w0) <? Word.add (m_nextFreeByte (this w0)) (rounded size)).
  - destruct (allocateNewPage cfg (rounded size) true _) as [b w1|w1|w1|w1];
      try reflexivity.
    destruct (DEBUG cfg); simpl; [|reflexivity].
    destruct (Word.modulus <? b + rounded size); reflexivity.
  - destruct (DEBUG cfg); simpl; [|reflexivity].
    destruct (Word.modulus <? m_nextFreeByte (this w0) + rounded size); reflexivity.
Qed.

(** In the release build there is neither assert nor probe nor stamp. *)
Lemma allocateMemory_release cfg size w :
  DEBUG cfg = false -> allocateMemory cfg size w = bump cfg (rounded size) w.
Proof.
  intros Hrel.
  unfold allocateMemory, bind at 1 2 3 4, isInitialized, assert, when.
  rewrite Hrel. simpl. unfold ret at 1.
  unfold bump, bind, get_this, put_this, advanced, ret; simpl.
  fold (rounded size).
  destruct (m_lastFreeByte (this w) <? Word.add (m_nextFreeByte (this w)) (rounded size)).
  - destruct (allocateNewPage cfg (rounded size) true _) as [b w1|w1|w1|w1]; reflexivity.
  - reflexivity.
Qed.

Lemma serve_release cfg r w : DEBUG cfg = false -> serve cfg r w = bump cfg r w.
Proof.
  intros Hrel. unfold serve, stamp_returned.
  destruct (bump cfg r w); try reflexivity.
  now rewrite stamp_faults_release, stamped_release.
Qed.

Lemma this_stamped cfg block size w : this (stamped cfg block size w) = this w.
Proof. unfold stamped. destruct (DEBUG cfg); reflexivity. Qed.

Lemma pages_stamped cfg block size w : pages (stamped cfg block size w) = pages w.
Proof. unfold stamped. destruct (DEBUG cfg); reflexivity. Qed.

Lemma host_stamped cfg block size w : host (stamped cfg block size w) = host w.
Proof. unfold stamped. destruct (DEBUG cfg); reflexivity. Qed.

Lemma this_after_probe cfg w : this (after_probe cfg w) = this w.
Proof. unfold after_probe. destruct (injecting cfg); reflexivity. Qed.

Lemma pages_after_probe cfg w : pages (after_probe cfg w) = pages w.
Proof. unfold after_probe. destruct (injecting cfg); reflexivity. Qed.

Lemma bytes_after_probe cfg w : bytes (after_probe cfg w) = bytes w.
Proof. unfold after_probe. destruct (injecting cfg); reflexivity. Qed.

Lemma pageReplies_after_probe cfg w :
  pageReplies (host (after_probe cfg w)) = pageReplies (host w).
Proof. unfold after_probe. destruct (injecting cfg); reflexivity. Qed.

Lemma released_after_probe cfg w :
  releasedPages (host (after_probe cfg w)) = releasedPages (host w).
Proof. unfold after_probe. destruct (injecting cfg); reflexivity. Qed.

Lemma processHeap_after_probe cfg w :
  processHeap (host (after_probe cfg w)) = processHeap (host w).
Proof. unfold after_probe. destruct (injecting cfg); reflexivity. Qed.

Lemma page_supplied_host cfg size w w' :
  pageReplies (host w') = pageReplies (host w) ->
  page_supplied cfg size w' = page_supplied cfg size w.
Proof. unfold page_supplied. now intros ->. Qed.

Lemma supplied_fits cfg r w b :
  page_supplied cfg r w = Some b -> 0 <= r ->
  0 < b /\ m_contents b + r < Word.modulus /\
  b + new_page_bytes cfg r < Word.modulus /\
  In b (pageReplies (host w)).
Proof.
  unfold page_supplied. intros H Hr.
  destruct (pageReplies (host w)) as [|b' rest]; [discriminate|].
  destruct (block_fits b' (new_page_bytes cfg r)) eqn:F; [|discriminate].
  injection H as ->.
  unfold block_fits in F. apply andb_true_iff in F. destruct F as [F1 F2].
  apply Z.ltb_lt in F1, F2.
  unfold new_page_bytes, m_contents in *.
  repeat split; try lia. now left.
Qed.

(** Whatever lines 125 to 131 do, they do one of these three things. *)
Lemma bump_cases cfg r w :
  (Word.add (m_nextFreeByte (this w)) r <= m_lastFreeByte (this w) /\
   bump cfg r w = Return (m_nextFreeByte (this w)) (advanced w r))
  \/
  (m_lastFreeByte (this w) < Word.add (m_nextFreeByte (this w)) r /\
   exists b, page_supplied cfg r w = Some b /\
     bump cfg r w = Return (m_contents b) (grown cfg r (advanced w r) b))
  \/
  (m_lastFreeByte (this w) < Word.add (m_nextFreeByte (this w)) r /\
   page_supplied cfg r w = None /\
   bump cfg r w = NOMEM (refused r (advanced w r))).
Proof.
  unfold bump.
  destruct (Z.ltb_spec (m_lastFreeByte (this w)) (Word.add (m_nextFreeByte (this w)) r))
    as [H|H].
  - right. destruct (page_supplied cfg r w) as [b|] eqn:E.
    + left. split; [exact H|]. exists b. split; [reflexivity|].
      apply allocateNewPage_supplied. rewrite <- E. now apply page_supplied_host.
    + right. split; [exact H|]. split; [reflexivity|].
      apply allocateNewPage_refused. rewrite <- E. now apply page_supplied_host.
  - left. split; [exact H|reflexivity].
Qed.

Lemma serve_fits cfg r w :
  Word.add (m_nextFreeByte (this w)) r <= m_lastFreeByte (this w) ->
  stamp_faults cfg (m_nextFreeByte (this w)) r = false ->
  serve cfg r w =
    Return (m_nextFreeByte (this w))
           (stamped cfg (m_nextFreeByte (this w)) r (advanced w r)).
Proof.
  intros H Hok. unfold serve.
  destruct (bump_cases cfg r w) as [[_ E]|[[Hgt _]|[Hgt _]]]; try lia.
  rewrite E. simpl. now rewrite Hok.
Qed.

Lemma serve_supplied cfg r w b :
  m_lastFreeByte (this w) < Word.add (m_nextFreeByte (this w)) r ->
  0 <= r ->
  page_supplied cfg r w = Some b ->
  serve cfg r w =
    Return (m_contents b) (stamped cfg (m_contents b) r (grown cfg r (advanced w r) b)).
Proof.
  intros H Hr Hb. unfold serve.
  destruct (bump_cases cfg r w) as [[Hle _]|[[_ (b' & Hb' & E)]|[_ [Hn _]]]];
    [lia| |congruence].
  assert (b' = b) by congruence. subst b'.
  rewrite E. simpl.
  destruct (supplied_fits cfg r w b Hb Hr) as (_ & Hfit & _).
  rewrite stamp_faults_inside by lia. reflexivity.
Qed.

Lemma serve_refused cfg r w :
  m_lastFreeByte (this w) < Word.add (m_nextFreeByte (this w)) r ->
  page_supplied cfg r w = None ->
  serve cfg r w = NOMEM (refused r (advanced w r)).
Proof.
  intros H Hb. unfold serve.
  destruct (bump_cases cfg r w) as [[Hle _]|[[_ (b' & Hb' & _)]|[_ [_ E]]]];
    [lia|congruence|].
  rewrite E. reflexivity.
Qed.

(** What a [serve] that returned went through. *)
Lemma serve_returned cfg r w block w' :
  serve cfg r w = Return block w' ->
  stamp_faults cfg block r = false /\
  ((Word.add (m_nextFreeByte (this w)) r <= m_lastFreeByte (this w) /\
    block = m_nextFreeByte (this w) /\
    w' = stamped cfg block r (advanced w r))
   \/
   (m_lastFreeByte (this w) < Word.add (m_nextFreeByte (this w)) r /\
    exists b, page_supplied cfg r w = Some b /\
      block = m_contents b /\
      w' = stamped cfg block r (grown cfg r (advanced w r) b))).
Proof.
  unfold serve. intros Hret.
  destruct (bump_cases cfg r w) as [[Hle E]|[[Hgt (b & Hb & E)]|[_ [_ E]]]];
    rewrite E in Hret; simpl in Hret; [| |discriminate].
  - destruct (stamp_faults cfg (m_nextFreeByte (this w)) r) eqn:F; [discriminate|].
    injection Hret as <- <-. split; [exact F|]. left. auto.
  - destruct (stamp_faults cfg (m_contents b) r) eqn:F; [discriminate|].
    injection Hret as <- <-. split; [exact F|]. right. split; [exact Hgt|].
    exists b. auto.
Qed.

(** What a call that returns went through: no fault fired, and [serve]
    returned on the world the probe left. *)
Lemma allocateMemory_returned cfg size w block w' :
  m_memoryManager (this w) <> nullptr -> size <> 0 ->
  allocateMemory cfg size w = Return block w' ->
  serve cfg (rounded size) (after_probe cfg w) = Return block w'.
Proof.
  intros Hinit Hsize Hret.
  rewrite allocateMemory_steps in Hret by assumption.
  destruct (fault_fires cfg w) eqn:F.
  - destruct (faultInjection_fires cfg w F) as (w0 & E & _).
    rewrite E in Hret. discriminate.
  - rewrite (faultInjection_passes cfg w F) in Hret. exact Hret.
Qed.

Lemma m_contents_aligned b : aligned b -> aligned (m_contents b).
Proof. intros H. apply aligned_plus; [exact H|reflexivity]. Qed.

(** ** Window or growth *)

(** While the cursor plus the rounded size stays inside the address
    space, an initialized arena serves a request of a size above zero from
    the window exactly when that sum does not pass the limit, returning
    the old cursor and moving the cursor on by the rounded size with no
    page traffic; otherwise it goes through page growth, asked to throw:
    a supplied page becomes the last page, the block is the start of its
    storage, the cursor stands right after the block and the limit at the
    end of the page; a refusal leaves through NOMEM. *)
Lemma allocateMemory_window_or_growth cfg w size :
  m_memoryManager (this w) <> nullptr ->
  0 < size ->
  fault_fires cfg w = false ->
  Word.in_range (m_nextFreeByte (this w)) ->
  Word.in_range (m_lastFreeByte (this w)) ->
  let cursor := m_nextFreeByte (this w) in
  let limit := m_lastFreeByte (this w) in
  let r := roundUp size sizeof_size_t in
  (cursor + r <= limit ->
   exists w',
     allocateMemory cfg size w = Return cursor w' /\
     m_nextFreeByte (this w') = cursor + r /\
     m_lastFreeByte (this w') = limit /\
     m_lastPage (this w') = m_lastPage (this w) /\
     pages w' = pages w /\
     pageReplies (host w') = pageReplies (host w))
  /\
  (limit < cursor + r -> cursor + r < Word.modulus ->
   (forall b, page_supplied cfg r w = Some b ->
      exists w',
        allocateMemory cfg size w = Return (m_contents b) w' /\
        m_lastPage (this w') = b /\
        last_page (pages w') =
          Some (b, mkPage nullptr (m_lastPage (this w)) (new_page_bytes cfg r) 0) /\
        length (pages w') = S (length (pages w)) /\
        m_nextFreeByte (this w') = m_contents b + r /\
        m_lastFreeByte (this w') = b + new_page_bytes cfg r)
   /\
   (page_supplied cfg r w = None ->
      exists w', allocateMemory cfg size w = NOMEM w')).
Proof.
  intros Hinit Hsize Hfault Hcur Hlim cursor limit r.
  pose proof (roundUp_range size) as Hr. fold r in Hr.
  assert (Hrun : allocateMemory cfg size w = serve cfg r (after_probe cfg w)).
  { rewrite allocateMemory_steps by (auto; lia).
    rewrite faultInjection_passes by assumption. reflexivity. }
  assert (Hs : forall b, page_supplied cfg r (after_probe cfg w) = b <->
                         page_supplied cfg r w = b).
  { intros b. rewrite (page_supplied_host cfg r w (after_probe cfg w)); [tauto|].
    apply pageReplies_after_probe. }
  assert (Hsum : cursor + r < Word.modulus -> Word.add cursor r = cursor + r).
  { intros H. apply add_exact. unfold Word.in_range, cursor in *. lia. }
  split; [intros Hfit|intros Hgrow Hroom; split; [intros b Hb|intros Hb]].
  - assert (Hroom : cursor + r < Word.modulus)
      by (unfold Word.in_range, limit in *; lia).
    eexists. split.
    + rewrite Hrun, serve_fits; rewrite this_after_probe;
        [reflexivity|fold cursor r; rewrite Hsum by exact Hroom; exact Hfit|].
      apply stamp_faults_inside. fold cursor. lia.
    + rewrite this_stamped, pages_stamped, host_stamped. simpl.
      rewrite this_after_probe, pages_after_probe, pageReplies_after_probe.
      fold cursor r. rewrite Hsum by exact Hroom.
      repeat split; reflexivity.
  - eexists. split.
    + rewrite Hrun. rewrite (serve_supplied cfg r _ b);
        [reflexivity| |apply Hr|now apply Hs].
      rewrite this_after_probe. fold cursor limit. rewrite Hsum by exact Hroom.
      exact Hgrow.
    + rewrite this_stamped, pages_stamped. simpl.
      rewrite this_after_probe, pages_after_probe.
      unfold link_page. rewrite last_page_app, length_app.
      simpl. repeat split; try reflexivity.
      unfold record_usedBytes. rewrite !update_last_length. lia.
  - eexists. rewrite Hrun. apply serve_refused.
    + rewrite this_after_probe. fold cursor limit r. rewrite Hsum by exact Hroom.
      exact Hgrow.
    + now apply Hs.
Qed.

(** C1, the code at the input where it fails: in the arena of
    [one_page_world] the cursor is 65576 and the limit 131072; for a
    request of 2^64 - 48 bytes, already a multiple of 8, the cursor plus
    the rounded size is far past the limit, yet the pointer sum of line
    126 wraps to 65528, the test of line 128 is false and the request is
    served from the window: the old cursor is returned, no page is asked
    for, and the cursor is moved back by 48 bytes. *)
Theorem window_serves_request_past_limit :
  roundUp (2 ^ 64 - 48) sizeof_size_t = 2 ^ 64 - 48 /\
  m_lastFreeByte (this one_page_world) <
    m_nextFreeByte (this one_page_world) + roundUp (2 ^ 64 - 48) sizeof_size_t /\
  exists w',
    allocateMemory release_build (2 ^ 64 - 48) one_page_world = Return 65576 w' /\
    m_nextFreeByte (this w') = 65528 /\
    m_lastFreeByte (this w') = 131072 /\
    pages w' = pages one_page_world /\
    host w' = host one_page_world.
Proof.
  split; [reflexivity|]. split; [reflexivity|].
  exists (outcome_world (allocateMemory release_build (2 ^ 64 - 48) one_page_world)).
  repeat split.
Qed.

(** ** Rounding and alignment *)

(** A request of a size above zero, up to the last multiple of the
    pointer width, that returns has taken its rounded size from the bump
    cursor: either it was served from the window, the block is the old
    cursor and the new cursor the old one plus the rounded size; or a page
    was added, the block is the start of the storage of the new last page
    and the new cursor the block plus the rounded size.  The rounded size
    covers the size with less than a pointer width to spare, and block and
    cursor are multiples of the pointer width when the old cursor was and
    the backing store hands out aligned pages. *)
Lemma allocateMemory_rounds_and_aligns cfg w size block w' :
  m_memoryManager (this w) <> nullptr ->
  0 < size <= Word.modulus - sizeof_size_t ->
  Word.in_range (m_nextFreeByte (this w)) ->
  allocateMemory cfg size w = Return block w' ->
  let r := roundUp size sizeof_size_t in
  size <= r < size + sizeof_size_t /\
  ((fits_window w size = true /\ block = m_nextFreeByte (this w) /\
    m_nextFreeByte (this w') = Word.add (m_nextFreeByte (this w)) r /\
    pages w' = pages w)
   \/
   (fits_window w size = false /\ block = m_contents (m_lastPage (this w')) /\
    m_nextFreeByte (this w') = block + r /\
    length (pages w') = S (length (pages w)))) /\
  m_nextFreeByte (this w') = Word.add block r /\
  (block + r < Word.modulus -> m_nextFreeByte (this w') - block = r) /\
  (aligned (m_nextFreeByte (this w)) ->
   Forall aligned (pageReplies (host w)) ->
   aligned block /\ aligned (m_nextFreeByte (this w'))).
Proof.
  intros Hinit Hsize Hcur Hret r.
  apply allocateMemory_returned in Hret; [|assumption|lia].
  unfold rounded in Hret. fold r in Hret.
  pose proof (roundUp_range size) as Hr. fold r in Hr.
  pose proof (roundUp_aligned size) as Ha. fold r in Ha.
  destruct (roundUp_least size) as [Hcover _]; [lia|]. fold r in Hcover.
  split; [exact Hcover|].
  destruct (serve_returned cfg r _ block w' Hret)
    as [_ [(Hfit & -> & ->)|(Hgrow & b & Hb & -> & ->)]];
    rewrite this_after_probe in *; rewrite this_stamped, pages_stamped; simpl;
    rewrite ?this_after_probe, ?pages_after_probe.
  - split; [|split; [reflexivity|split]].
    + left. unfold fits_window, rounded. fold r.
      split; [now apply Z.leb_le|auto].
    + intros Hsum. rewrite add_exact; [lia|]. unfold Word.in_range in *. lia.
    + intros Hal _. split; [exact Hal|now apply add_aligned].
  - destruct (supplied_fits cfg r _ b Hb) as (Hb0 & Hb1 & _ & Hin); [apply Hr|].
    rewrite pageReplies_after_probe in Hin.
    assert (Hsum : Word.add (m_contents b) r = m_contents b + r).
    { apply add_exact. unfold Word.in_range, m_contents, sizeof_PageDescriptor,
        sizeof_size_t in *. lia. }
    split; [|split; [now rewrite Hsum|split]].
    + right. unfold fits_window, rounded. fold r.
      split; [now apply Z.leb_gt|]. split; [reflexivity|]. split; [reflexivity|].
      unfold link_page, record_usedBytes.
      rewrite length_app, !update_last_length. simpl. lia.
    + intros _. lia.
    + intros _ Hall. rewrite Forall_forall in Hall.
      assert (aligned (m_contents b)) by (apply m_contents_aligned; now apply Hall).
      split; [assumption|now apply aligned_plus].
Qed.

(** C3, the code at the inputs where it fails.  On an arena with no page
    yet a request of 2^64 - 1 bytes returns with the cursor where it was:
    no byte is taken from the cursor, the rounding of line 106 having
    wrapped to zero.  In the arena of [one_page_world] a request of
    2^64 - 48 bytes, its own rounded size, returns the cursor 65576 and
    leaves the cursor at 65528: the cursor has moved back by 48 bytes
    instead of on by the rounded size. *)
Theorem rounded_size_not_taken_on_wrap :
  (exists w',
     allocateMemory release_build (2 ^ 64 - 1) (fresh_world [65536] []) =
       Return nullptr w' /\
     m_nextFreeByte (this w') - nullptr = 0 /\
     pages w' = []) /\
  (exists w',
     allocateMemory release_build (2 ^ 64 - 48) one_page_world = Return 65576 w' /\
     roundUp (2 ^ 64 - 48) sizeof_size_t = 2 ^ 64 - 48 /\
     m_nextFreeByte (this w') - 65576 = - 48).
Proof.
  split.
  - exists (fresh_world [65536] []). repeat split.
  - exists (outcome_world (allocateMemory release_build (2 ^ 64 - 48) one_page_world)).
    repeat split.
Qed.

(** ** Contiguity, the zero size, the probe and the stamp *)

(** A call that returns from the window hands out the cursor and leaves
    the arena with the cursor moved on, nothing else touched. *)
Lemma allocateMemory_from_window cfg w size block w' :
  m_memoryManager (this w) <> nullptr -> size <> 0 ->
  fits_window w size = true ->
  allocateMemory cfg size w = Return block w' ->
  block = m_nextFreeByte (this w) /\
  this w' = set_nextFreeByte (this w) (Word.add (m_nextFreeByte (this w)) (rounded size)) /\
  pages w' = pages w.
Proof.
  intros Hinit Hsize Hfit Hret.
  apply allocateMemory_returned in Hret; [|assumption..].
  unfold fits_window in Hfit. apply Z.leb_le in Hfit.
  destruct (serve_returned cfg _ _ block w' Hret)
    as [_ [(_ & -> & ->)|(Hgrow & _)]];
    rewrite this_after_probe in *; [|lia].
  rewrite this_stamped, pages_stamped. simpl.
  rewrite this_after_probe, pages_after_probe. auto.
Qed.

(** C6: two calls in a row, of sizes above zero, that are both served
    from the window return addresses of which the second is the first plus
    the rounded first size (the pointer sum; the plain sum when it does
    not wrap). *)
Theorem fast_path_contiguity cfg w size1 size2 addr1 addr2 w1 w2 :
  m_memoryManager (this w) <> nullptr ->
  Word.in_range (m_nextFreeByte (this w)) ->
  0 < size1 -> 0 < size2 ->
  fits_window w size1 = true ->
  allocateMemory cfg size1 w = Return addr1 w1 ->
  fits_window w1 size2 = true ->
  allocateMemory cfg size2 w1 = Return addr2 w2 ->
  addr2 = Word.add addr1 (roundUp size1 sizeof_size_t) /\
  (addr1 + roundUp size1 sizeof_size_t < Word.modulus ->
   addr2 = addr1 + roundUp size1 sizeof_size_t).
Proof.
  intros Hinit Hcur H1 H2 Hfit1 Hret1 Hfit2 Hret2.
  destruct (allocateMemory_from_window cfg w size1 addr1 w1) as (-> & Hthis1 & _);
    [assumption|lia|assumption..|].
  destruct (allocateMemory_from_window cfg w1 size2 addr2 w2) as (-> & _ & _);
    [rewrite Hthis1; assumption|lia|assumption..|].
  rewrite Hthis1. simpl. split; [reflexivity|].
  intros Hsum. apply add_exact.
  pose proof (roundUp_range size1) as Hr.
  unfold Word.in_range, rounded in *. lia.
Qed.

Lemma fast_path_contiguity_witness :
  exists addr1 addr2 w1 w2,
    allocateMemory release_build 13 one_page_world = Return addr1 w1 /\
    allocateMemory release_build 40 w1 = Return addr2 w2 /\
    addr2 = addr1 + 16.
Proof.
  pose (w1 := outcome_world (allocateMemory release_build 13 one_page_world)).
  pose (w2 := outcome_world (allocateMemory release_build 40 w1)).
  exists 65576, 65592, w1, w2.
  assert (Hinit : m_memoryManager (this one_page_world) <> nullptr) by discriminate.
  assert (Hcur : Word.in_range (m_nextFreeByte (this one_page_world)))
    by (unfold Word.in_range, Word.modulus; simpl; lia).
  assert (Hrun1 : allocateMemory release_build 13 one_page_world = Return 65576 w1)
    by reflexivity.
  assert (Hrun2 : allocateMemory release_build 40 w1 = Return 65592 w2)
    by reflexivity.
  split; [exact Hrun1|]. split; [exact Hrun2|].
  apply (fast_path_contiguity release_build one_page_world 13 40 65576 65592 w1 w2
           Hinit Hcur ltac:(lia) ltac:(lia) eq_refl Hrun1 eq_refl Hrun2).
  reflexivity.
Defined.

(** C10: in the build without asserts a request of size zero rounds to
    zero; with the cursor not past the limit it returns the cursor and
    leaves the whole world as it was, so a second such call returns the
    same address again. *)
Theorem allocateMemory_zero cfg w :
  DEBUG cfg = false ->
  Word.in_range (m_nextFreeByte (this w)) ->
  m_nextFreeByte (this w) <= m_lastFreeByte (this w) ->
  roundUp 0 sizeof_size_t = 0 /\
  allocateMemory cfg 0 w = Return (m_nextFreeByte (this w)) w /\
  (forall addr w1,
     allocateMemory cfg 0 w = Return addr w1 ->
     allocateMemory cfg 0 w1 = Return addr w1).
Proof.
  intros Hrel Hcur Hle.
  assert (Hrun : allocateMemory cfg 0 w = Return (m_nextFreeByte (this w)) w).
  { rewrite allocateMemory_release by assumption.
    unfold rounded. rewrite roundUp_zero.
    destruct (bump_cases cfg 0 w) as [[_ E]|[[Hgt _]|[Hgt _]]];
      try (rewrite add_zero in Hgt by assumption; lia).
    rewrite E. unfold advanced. rewrite add_zero by assumption.
    destruct w as [[mm first last next lim] ps m h]. reflexivity. }
  split; [reflexivity|]. split; [exact Hrun|].
  intros addr w1 Hret. rewrite Hrun in Hret. injection Hret as <- <-. exact Hrun.
Qed.

Lemma allocateMemory_zero_witness :
  allocateMemory release_build 0 one_page_world = Return 65576 one_page_world.
Proof.
  destruct (allocateMemory_zero release_build one_page_world eq_refl)
    as (_ & Hrun & _).
  - unfold Word.in_range, Word.modulus; simpl; lia.
  - simpl; lia.
  - exact Hrun.
Defined.




Lemma debug_build_asserts cfg size w block w' :
  DEBUG cfg = true ->
  allocateMemory cfg size w = Return block w' ->
  m_memoryManager (this w) <> nullptr /\ size <> 0.
Proof.
  intros Hdebug Hret.
  unfold allocateMemory, bind at 1 2 3, isInitialized, assert in Hret.
  rewrite Hdebug in Hret. simpl in Hret.
  destruct (Z.eqb_spec (m_memoryManager (this w)) nullptr) as [E|E];
    simpl in Hret; [discriminate|].
  destruct (Z.eqb_spec size 0) as [E0|E0]; simpl in Hret; [discriminate|].
  split; assumption.
Qed.

(** C8: in the DEBUG build, once a call has returned a block, every byte
    of the block, over its whole rounded size, holds the fill byte
    [UninitializedWord<char>]. *)
Theorem debug_build_stamps_block cfg w size block w' :
  DEBUG cfg = true ->
  allocateMemory cfg size w = Return block w' ->
  forall i, 0 <= i < roundUp size sizeof_size_t ->
            bytes w' (block + i) = UninitializedWord_char cfg.
Proof.
  intros Hdebug Hret i Hi.
  destruct (debug_build_asserts cfg size w block w' Hdebug Hret) as [Hinit Hsize].
  apply allocateMemory_returned in Hret; [|assumption..].
  unfold rounded in Hret.
  assert (Hstamp : exists w0, w' = stamped cfg block (roundUp size sizeof_size_t) w0).
  { destruct (serve_returned cfg _ _ block w' Hret)
      as [_ [(_ & _ & ->)|(_ & b & _ & _ & ->)]]; eexists; reflexivity. }
  destruct Hstamp as (w0 & ->).
  unfold stamped. rewrite Hdebug. simpl.
  destruct (Z.leb_spec block (block + i)); [|lia].
  destruct (Z.ltb_spec (block + i) (block + roundUp size sizeof_size_t)); [|lia].
  reflexivity.
Qed.

Lemma debug_build_stamps_block_witness :
  exists block w',
    allocateMemory (debug_build 0) 13 one_page_world = Return block w' /\
    bytes one_page_world (block + 15) = 0 /\
    bytes w' (block + 15) = 221.
Proof.
  pose (w' := outcome_world (allocateMemory (debug_build 0) 13 one_page_world)).
  exists 65576, w'.
  assert (Hrun : allocateMemory (debug_build 0) 13 one_page_world = Return 65576 w')
    by reflexivity.
  split; [exact Hrun|]. split; [reflexivity|].
  apply (debug_build_stamps_block (debug_build 0) one_page_world 13 65576 w' eq_refl Hrun).
  vm_compute. split; [discriminate|reflexivity].
Defined.

(** ** Page growth *)

Lemma allocated_update_last (f : Z * PageDescriptor -> Z * PageDescriptor) ps :
  (forall p, m_pageBytes (snd (f p)) = m_pageBytes (snd p)) ->
  fold_right Z.add 0 (map (fun p => m_pageBytes (snd p)) (update_last f ps)) =
  fold_right Z.add 0 (map (fun p => m_pageBytes (snd p)) ps).
Proof.
  intros Hf. rewrite update_last_map; [reflexivity|exact Hf].
Qed.

Lemma sum_app l1 l2 :
  fold_right Z.add 0 (l1 ++ l2) = fold_right Z.add 0 l1 + fold_right Z.add 0 l2.
Proof. induction l1 as [|x l1 IH]; simpl; [reflexivity|rewrite IH; lia]. Qed.

Lemma getTotalBytesAllocated_grown cfg size w b :
  getTotalBytesAllocated (grown cfg size w b) =
  getTotalBytesAllocated w + new_page_bytes cfg size.
Proof.
  unfold getTotalBytesAllocated, grown, link_page, record_usedBytes. simpl.
  rewrite map_app, sum_app, !allocated_update_last by reflexivity.
  simpl. lia.
Qed.

(** C4, as the code has it: when page growth is entered for a request of
    rounded size [r] and the backing store supplies the page, one page is
    added to the chain, of [max(s_defaultPageSize, r +
    sizeof(PageDescriptor))] bytes, and the bytes allocated grow by as
    much.  That is the default page size when the request and the header
    together fit it, and the request plus the header when they do not;
    with the default left at [DEFAULT_PAGE_SIZE] the former is sixteen
    times the native page size. *)
Theorem new_page_capacity cfg w r b :
  page_supplied cfg r w = Some b ->
  let capacity := Z.max (s_defaultPageSize cfg) (r + sizeof_PageDescriptor) in
  exists w',
    allocateNewPage cfg r true w = Return (m_contents b) w' /\
    length (pages w') = S (length (pages w)) /\
    last_page (pages w') = Some (b, mkPage nullptr (m_lastPage (this w)) capacity 0) /\
    getTotalBytesAllocated w' = getTotalBytesAllocated w + capacity /\
    (r + sizeof_PageDescriptor <= s_defaultPageSize cfg ->
     capacity = s_defaultPageSize cfg) /\
    (s_defaultPageSize cfg < r + sizeof_PageDescriptor ->
     capacity = r + sizeof_PageDescriptor) /\
    (s_defaultPageSize cfg = DEFAULT_PAGE_SIZE cfg ->
     r + sizeof_PageDescriptor <= 16 * OS_page_size cfg ->
     capacity = 16 * OS_page_size cfg).
Proof.
  intros Hb capacity.
  exists (grown cfg r w b).
  split; [now apply allocateNewPage_supplied|].
  split; [|split; [|split; [|split; [|split]]]].
  - unfold grown, link_page, record_usedBytes. simpl.
    rewrite length_app, !update_last_length. simpl. lia.
  - unfold grown, link_page. simpl. apply last_page_app.
  - apply getTotalBytesAllocated_grown.
  - intros H. unfold capacity. lia.
  - intros H. unfold capacity. lia.
  - unfold DEFAULT_PAGE_SIZE. intros Hd H. unfold capacity. lia.
Qed.

Lemma new_page_capacity_witness :
  exists w',
    allocateNewPage release_build 100000 true (fresh_world [65536] []) =
      Return 65568 w' /\
    getTotalBytesAllocated w' = 100032.
Proof.
  destruct (new_page_capacity release_build (fresh_world [65536] []) 100000 65536 eq_refl)
    as (w' & Hrun & _ & _ & Htotal & _).
  exists w'. split; [exact Hrun|]. rewrite Htotal. reflexivity.
Defined.

(** C4, as stated, fails just below the default page size: a first
    request of 65528 bytes, less than the default page size of 65536 (16
    pages of 4096), gets a page of 65560 bytes, not one of the default
    size. *)
Lemma near_default_request_counterexample :
  exists block w',
    allocateMemory release_build 65528 (fresh_world [65536] []) = Return block w' /\
    roundUp 65528 sizeof_size_t < s_defaultPageSize release_build /\
    s_defaultPageSize release_build = 16 * OS_page_size release_build /\
    map (fun p => m_pageBytes (snd p)) (pages w') = [65560] /\
    65560 <> s_defaultPageSize release_build.
Proof.
  exists 65568.
  exists (outcome_world (allocateMemory release_build 65528 (fresh_world [65536] []))).
  split; [reflexivity|]. split; [reflexivity|]. split; [reflexivity|].
  split; [reflexivity|discriminate].
Qed.


(** ** A request that cannot be satisfied *)







Lemma released_fold l h :
  releasedPages (fold_left release_page l h) = releasedPages h ++ l.
Proof.
  revert h. induction l as [|x l IH]; intros h; simpl.
  - now rewrite app_nil_r.
  - rewrite IH. simpl. now rewrite <- app_assoc.
Qed.

Lemma release_chain_run ps w :
  release_chain ps w =
  Return tt (set_host w (fold_left release_page (map fst ps) (host w))).
Proof.
  revert w. induction ps as [|page rest IH]; intros w; simpl.
  - destruct w. reflexivity.
  - unfold bind, freeHostMemory. rewrite IH. reflexivity.
Qed.

(** [destroy] always returns, on an arena with every member null and no
    page, every page of the chain given back. *)
Lemma destroy_resets w :
  exists gone,
    destroy w = Return tt gone /\
    this gone = ArenaAllocator_default /\
    pages gone = [] /\
    releasedPages (host gone) = releasedPages (host w) ++ map fst (pages w).
Proof.
  unfold destroy, bind. rewrite release_chain_run.
  eexists. split; [reflexivity|]. simpl.
  repeat split. apply released_fold.
Qed.




(** ** The window and the last page *)

Lemma window_in_last_pageb_spec w :
  window_in_last_pageb w = true <-> window_in_last_page w.
Proof.
  unfold window_in_last_pageb, window_in_last_page.
  destruct (Z.eqb_spec (m_nextFreeByte (this w)) nullptr) as [Ec|Ec]; simpl;
    [split; [intros _ Hc; contradiction|reflexivity]|].
  destruct (Z.eqb_spec (m_lastFreeByte (this w)) nullptr) as [El|El]; simpl;
    [split; [intros _ _ Hl; contradiction|reflexivity]|].
  destruct (last_page (pages w)) as [page|].
  - rewrite !andb_true_iff, Z.eqb_eq, !Z.leb_le. split.
    + intros (((H1 & H2) & H3) & H4) _ _. exists page. auto.
    + intros H. destruct (H Ec El) as (page' & Hp & H1 & H2 & H3 & H4).
      injection Hp as <-. auto.
  - split; [discriminate|].
    intros H. destruct (H Ec El) as (page' & Hp & _). discriminate.
Qed.

(** A constructed arena has a null window, and so has a destroyed one. *)
Lemma constructed_window mm ps m h :
  window_in_last_page (mkWorld (ArenaAllocator_new mm) ps m h).
Proof. intros Hc. exfalso. now apply Hc. Qed.

Lemma destroyed_window w : window_in_last_page (outcome_world (destroy w)).
Proof.
  destruct (destroy_resets w) as (gone & E & Hthis & _).
  rewrite E. simpl. unfold window_in_last_page. rewrite Hthis.
  intros Hc. exfalso. now apply Hc.
Qed.

Lemma grown_window cfg r w b :
  0 <= r ->
  window_in_last_page (grown cfg r w b).
Proof.
  intros Hr _ _. eexists. split; [apply last_page_app|].
  unfold grown, new_page_bytes, m_contents, sizeof_PageDescriptor, sizeof_size_t.
  simpl. repeat split; lia.
Qed.

(** As long as the cursor plus the rounded size stays inside the address
    space, a call of [allocateMemory] that returns keeps the window inside
    the last page and the pointers in order; so does one that an injected
    fault stops. *)
Lemma allocateMemory_keeps_window cfg w size :
  m_memoryManager (this w) <> nullptr ->
  0 < size ->
  pointers_ok w ->
  window_in_last_page w ->
  m_nextFreeByte (this w) + roundUp size sizeof_size_t < Word.modulus ->
  (forall block w',
     allocateMemory cfg size w = Return block w' ->
     window_in_last_page w' /\ pointers_ok w') /\
  (fault_fires cfg w = true ->
   window_in_last_page (outcome_world (allocateMemory cfg size w)) /\
   pointers_ok (outcome_world (allocateMemory cfg size w))).
Proof.
  intros Hinit Hsize (Hcur & Hlim & Hnull) Hinv Hsum.
  pose proof (roundUp_range size) as Hr.
  split.
  - intros block w' Hret.
    apply allocateMemory_returned in Hret; [|assumption|lia].
    unfold rounded in Hret.
    set (r := roundUp size sizeof_size_t) in *.
    destruct (serve_returned cfg r _ block w' Hret)
      as [_ [(Hfit & -> & ->)|(_ & b & Hb & -> & ->)]];
      rewrite ?this_after_probe in *;
      unfold window_in_last_page, pointers_ok;
      rewrite this_stamped, pages_stamped.
    + simpl. rewrite this_after_probe, pages_after_probe.
      rewrite add_exact in * by (unfold Word.in_range in *; lia).
      unfold Word.in_range, nullptr in *. split.
      * intros Hc Hl.
        destruct (Z.eq_dec (m_nextFreeByte (this w)) 0) as [E0|E0];
          [specialize (Hnull E0); contradiction|].
        destruct (Hinv E0 Hl) as (page & H1 & H2 & H3 & H4 & H5).
        exists page. repeat split; auto; lia.
      * repeat split; lia.
    + destruct (supplied_fits cfg r _ b Hb) as (Hb0 & Hb1 & Hb2 & _); [apply Hr|].
      split.
      * apply grown_window, Hr.
      * unfold grown, new_page_bytes, m_contents, sizeof_PageDescriptor, sizeof_size_t,
          Word.in_range, nullptr in *. simpl. destruct Hr. repeat split; lia.
  - intros F. rewrite allocateMemory_steps by (auto; lia).
    destruct (faultInjection_fires cfg w F) as (w' & E & Hthis & Hpages & _).
    rewrite E. simpl. unfold window_in_last_page, pointers_ok.
    rewrite Hthis, Hpages. auto.
Qed.

(** C7, the code at the input where it fails: a first request of 8 bytes
    opens the page at 65536 and leaves the window inside it; a second
    request of 2^64 - 48 bytes makes the pointer sum of line 126 wrap to
    65528, which is not past the limit, so the call returns from the
    window and leaves the cursor in front of the page it should point
    into. *)
Theorem window_leaves_page_on_wrap :
  exists w1 w2,
    allocateMemory release_build 8 (fresh_world [65536] []) = Return 65568 w1 /\
    window_in_last_page w1 /\
    allocateMemory release_build (2 ^ 64 - 48) w1 = Return 65576 w2 /\
    m_lastPage (this w2) = 65536 /\
    m_nextFreeByte (this w2) = 65528 /\
    m_lastFreeByte (this w2) = 131072 /\
    ~ window_in_last_page w2.
Proof.
  pose (w1 := outcome_world (allocateMemory release_build 8 (fresh_world [65536] []))).
  pose (w2 := outcome_world (allocateMemory release_build (2 ^ 64 - 48) w1)).
  exists w1, w2.
  split; [reflexivity|]. split; [now apply window_in_last_pageb_spec|].
  split; [reflexivity|]. split; [reflexivity|]. split; [reflexivity|].
  split; [reflexivity|].
  intros H. apply window_in_last_pageb_spec in H. discriminate H.
Qed.

(** ** Null results *)

(** A call that returns hands out a block that is not null, as long as
    the rounded size is not zero. *)
Lemma allocateMemory_nonnull cfg w size block w' :
  m_memoryManager (this w) <> nullptr ->
  0 < size ->
  pointers_ok w ->
  roundUp size sizeof_size_t <> 0 ->
  allocateMemory cfg size w = Return block w' ->
  block <> nullptr.
Proof.
  intros Hinit Hsize (Hcur & Hlim & Hnull) Hr Hret.
  apply allocateMemory_returned in Hret; [|assumption|lia].
  unfold rounded in Hret.
  pose proof (roundUp_range size) as Hrange.
  set (r := roundUp size sizeof_size_t) in *.
  destruct (serve_returned cfg r _ block w' Hret)
    as [_ [(Hfit & -> & ->)|(_ & b & Hb & -> & ->)]].
  - rewrite this_after_probe in *. intros E0.
    rewrite E0, (Hnull E0) in Hfit.
    unfold Word.add in Hfit. rewrite wrap_small in Hfit by exact Hrange.
    unfold Word.in_range, nullptr in *. lia.
  - destruct (supplied_fits cfg r _ b Hb) as (Hb0 & _); [apply Hrange|].
    unfold m_contents, sizeof_PageDescriptor, sizeof_size_t, nullptr. lia.
Qed.

(** C9, the code at the input where it fails: on an arena that has no
    page yet a request of 2^64 - 1 bytes passes the assert on the size,
    is rounded to zero, is found to fit the null window and returns the
    null cursor, in the release build and in the DEBUG build alike; page
    growth is not called. *)
Theorem null_returned_for_wrapping_size :
  roundUp (2 ^ 64 - 1) sizeof_size_t = 0 /\
  allocateMemory release_build (2 ^ 64 - 1) (fresh_world [65536] []) =
    Return nullptr (fresh_world [65536] []) /\
  returned (allocateMemory (debug_build 0) (2 ^ 64 - 1) (fresh_world [65536] [])) =
    Some nullptr.
Proof. repeat split. Qed.


(** ** Further properties of [allocateMemory] *)

Lemma host_after_probe cfg w :
  injecting cfg = false -> after_probe cfg w = w.
Proof. unfold after_probe. now intros ->. Qed.

Lemma fault_fires_off cfg w : injecting cfg = false -> fault_fires cfg w = false.
Proof. unfold fault_fires. now intros ->. Qed.

Lemma serve_never_aborts cfg r w w' : serve cfg r w <> AssertAbort w'.
Proof.
  unfold serve.
  destruct (bump_cases cfg r w) as [[_ E]|[[_ (b & _ & E)]|[_ [_ E]]]];
    rewrite E; simpl; try discriminate.
  - destruct (stamp_faults cfg (m_nextFreeByte (this w)) r); discriminate.
  - destruct (stamp_faults cfg (m_contents b) r); discriminate.
Qed.

Lemma faultInjection_never_aborts cfg w w' : faultInjection cfg w <> AssertAbort w'.
Proof.
  destruct (fault_fires cfg w) eqn:F.
  - destruct (faultInjection_fires cfg w F) as (w0 & E & _). rewrite E. discriminate.
  - rewrite faultInjection_passes by assumption. discriminate.
Qed.

(** X1: in the DEBUG build a call stops in an assert exactly when the
    arena is not initialized or the size is zero, and it stops there
    before anything is touched: the world is the one the call was made
    in.  The release build never stops in an assert. *)
Theorem debug_asserts_stop_first cfg size w :
  (DEBUG cfg = true ->
   (m_memoryManager (this w) = nullptr \/ size = 0 <->
    allocateMemory cfg size w = AssertAbort w) /\
   (forall w', allocateMemory cfg size w = AssertAbort w' -> w' = w)) /\
  (DEBUG cfg = false ->
   forall w', allocateMemory cfg size w <> AssertAbort w').
Proof.
  split.
  - intros Hdebug.
    assert (Hstop : m_memoryManager (this w) = nullptr \/ size = 0 ->
                    allocateMemory cfg size w = AssertAbort w).
    { intros Hbad.
      unfold allocateMemory, bind at 1 2 3, isInitialized, assert.
      rewrite Hdebug. simpl.
      destruct (Z.eqb_spec (m_memoryManager (this w)) nullptr) as [E|E];
        simpl; [reflexivity|].
      destruct Hbad as [Hbad|Hbad]; [contradiction|].
      subst size. reflexivity. }
    assert (Hgo : m_memoryManager (this w) <> nullptr -> size <> 0 ->
                  forall w', allocateMemory cfg size w <> AssertAbort w').
    { intros Hinit Hsize w'. rewrite allocateMemory_steps by assumption.
      destruct (faultInjection cfg w) as [[] w0|w0|w0|w0] eqn:E.
      - apply serve_never_aborts.
      - discriminate.
      - exfalso. now apply (faultInjection_never_aborts cfg w w0).
      - discriminate. }
    destruct (Z.eq_dec (m_memoryManager (this w)) nullptr) as [E|E];
      [|destruct (Z.eq_dec size 0) as [E0|E0]].
    + split; [split; auto|]. intros w' H. rewrite Hstop in H by auto. congruence.
    + split; [split; auto|]. intros w' H. rewrite Hstop in H by auto. congruence.
    + split; [split|].
      * intros [?|?]; contradiction.
      * intros H. exfalso. now apply (Hgo E E0 w).
      * intros w' H. exfalso. now apply (Hgo E E0 w').
  - intros Hrel w'. rewrite allocateMemory_release by assumption.
    rewrite <- serve_release by assumption. apply serve_never_aborts.
Qed.

Lemma debug_asserts_stop_first_witness :
  allocateMemory (debug_build 1) 0 one_page_world = AssertAbort one_page_world.
Proof.
  destruct (debug_asserts_stop_first (debug_build 1) 0 one_page_world) as [Hdebug _].
  destruct (Hdebug eq_refl) as [[Hstop _] _].
  apply Hstop. right. reflexivity.
Defined.

(** X2: the size is looked at only through its rounding: two requests of
    sizes above zero with the same rounded size are the same call, in
    every build and every world.  So a request behaves as the request of
    its own rounded size, the rounding of a rounded size being itself. *)
Theorem same_rounding_same_call cfg size1 size2 w :
  0 < size1 -> 0 < size2 ->
  roundUp size1 sizeof_size_t = roundUp size2 sizeof_size_t ->
  allocateMemory cfg size1 w = allocateMemory cfg size2 w /\
  (size1 <= Word.modulus - sizeof_size_t ->
   roundUp (roundUp size1 sizeof_size_t) sizeof_size_t = roundUp size1 sizeof_size_t /\
   allocateMemory cfg (roundUp size1 sizeof_size_t) w = allocateMemory cfg size1 w).
Proof.
  intros H1 H2 Hsame.
  assert (Hcall : forall s1 s2, 0 < s1 -> 0 < s2 ->
            roundUp s1 sizeof_size_t = roundUp s2 sizeof_size_t ->
            allocateMemory cfg s1 w = allocateMemory cfg s2 w).
  { intros s1 s2 Hs1 Hs2 E. unfold allocateMemory.
    assert (E1 : (s1 =? 0) = false) by (apply Z.eqb_neq; lia).
    assert (E2 : (s2 =? 0) = false) by (apply Z.eqb_neq; lia).
    rewrite E1, E2, E. reflexivity. }
  split; [now apply Hcall|].
  intros Hle.
  destruct (roundUp_least size1) as [[Hlo Hhi] Hal]; [lia|].
  assert (Hidem : roundUp (roundUp size1 sizeof_size_t) sizeof_size_t =
                  roundUp size1 sizeof_size_t).
  { set (r := roundUp size1 sizeof_size_t) in *.
    unfold aligned in Hal. unfold roundUp, sizeof_size_t in *.
    assert (Hq : (r + (8 - 1)) / 8 = r / 8).
    { symmetry. apply Z.div_unique with (r := r mod 8 + 7).
      - left. rewrite Hal. lia.
      - pose proof (Z.div_mod r 8 ltac:(lia)). lia. }
    rewrite Hq.
    pose proof (Z.div_mod r 8 ltac:(lia)) as Hd. rewrite Hal in Hd.
    rewrite wrap_small; [lia|]. unfold Word.in_range, Word.modulus in *. lia. }
  split; [exact Hidem|]. apply Hcall; [lia|lia|exact Hidem].
Qed.

Lemma same_rounding_same_call_witness :
  allocateMemory (debug_build 1) 1 served_world =
  allocateMemory (debug_build 1) 8 served_world.
Proof.
  destruct (same_rounding_same_call (debug_build 1) 1 8 served_world) as [Hsame _];
    [lia|lia|reflexivity|exact Hsame].
Defined.

(** A request that fits the window in plain arithmetic is served from it,
    and its pointer sum does not wrap. *)
Lemma window_step cfg size w :
  m_memoryManager (this w) <> nullptr ->
  0 < size ->
  fault_fires cfg w = false ->
  Word.in_range (m_nextFreeByte (this w)) ->
  Word.in_range (m_lastFreeByte (this w)) ->
  m_nextFreeByte (this w) + rounded size <= m_lastFreeByte (this w) ->
  Word.add (m_nextFreeByte (this w)) (rounded size) =
    m_nextFreeByte (this w) + rounded size /\
  allocateMemory cfg size w =
    Return (m_nextFreeByte (this w))
      (stamped cfg (m_nextFreeByte (this w)) (rounded size)
         (advanced (after_probe cfg w) (rounded size))).
Proof.
  intros Hinit Hsize Hfault Hcur Hlim Hfit.
  pose proof (roundUp_range size) as Hr. fold (rounded size) in Hr.
  assert (Hsum : Word.add (m_nextFreeByte (this w)) (rounded size) =
                 m_nextFreeByte (this w) + rounded size).
  { apply add_exact. unfold Word.in_range in *. lia. }
  split; [exact Hsum|].
  rewrite allocateMemory_steps by (auto; lia).
  rewrite faultInjection_passes by assumption.
  rewrite serve_fits; rewrite this_after_probe; [reflexivity| |].
  - rewrite Hsum. exact Hfit.
  - apply stamp_faults_inside. unfold Word.in_range in *. lia.
Qed.

(** X3: a request of a size above zero, up to the last multiple of the
    pointer width, that fits the window is handed the cursor, and the
    block it is handed holds the request: the new cursor lies at least
    [size] and less than [size + 8] bytes behind the block, and not past
    the limit, which stays where it was. *)
Theorem block_holds_request cfg size w :
  m_memoryManager (this w) <> nullptr ->
  0 < size <= Word.modulus - sizeof_size_t ->
  fault_fires cfg w = false ->
  Word.in_range (m_nextFreeByte (this w)) ->
  Word.in_range (m_lastFreeByte (this w)) ->
  m_nextFreeByte (this w) + roundUp size sizeof_size_t <= m_lastFreeByte (this w) ->
  exists w',
    allocateMemory cfg size w = Return (m_nextFreeByte (this w)) w' /\
    m_nextFreeByte (this w) + size <= m_nextFreeByte (this w') /\
    m_nextFreeByte (this w') < m_nextFreeByte (this w) + size + sizeof_size_t /\
    m_nextFreeByte (this w') <= m_lastFreeByte (this w') /\
    m_lastFreeByte (this w') = m_lastFreeByte (this w).
Proof.
  intros Hinit Hsize Hfault Hcur Hlim Hfit.
  destruct (window_step cfg size w) as [Hsum Hrun]; try assumption; [lia|].
  destruct (roundUp_least size) as [[Hlo Hhi] _]; [lia|].
  eexists. split; [exact Hrun|].
  rewrite this_stamped. simpl. rewrite this_after_probe, Hsum.
  unfold rounded. repeat split; lia.
Qed.

Lemma block_holds_request_witness :
  exists w',
    allocateMemory (debug_build 1) 13 served_world = Return 65576 w' /\
    65576 + 13 <= m_nextFreeByte (this w').
Proof.
  destruct (block_holds_request (debug_build 1) 13 served_world)
    as (w' & Hrun & Hlo & _).
  - discriminate.
  - unfold Word.modulus, sizeof_size_t. lia.
  - reflexivity.
  - unfold Word.in_range, Word.modulus; simpl; lia.
  - unfold Word.in_range, Word.modulus; simpl; lia.
  - vm_compute. discriminate.
  - exists w'. split; [exact Hrun|exact Hlo].
Defined.

(** X4: a call served from the window changes the cursor and, in the
    DEBUG build, the bytes of the block it returns, and nothing else: of
    the arena object only [m_nextFreeByte] is written, which becomes the
    old cursor plus the rounded size; the page descriptors, the replies
    and the released pages of the backing store and the process heap are
    as before; and of the memory outside the arena object and the page
    descriptors every byte below the block or from its end on reads what
    it read before, every byte at all in the release build. *)
Theorem window_call_changes_cursor_and_block cfg size w block w' :
  m_memoryManager (this w) <> nullptr ->
  0 < size ->
  fits_window w size = true ->
  allocateMemory cfg size w = Return block w' ->
  block = m_nextFreeByte (this w) /\
  this w' = set_nextFreeByte (this w)
              (Word.add (m_nextFreeByte (this w)) (roundUp size sizeof_size_t)) /\
  pages w' = pages w /\
  pageReplies (host w') = pageReplies (host w) /\
  releasedPages (host w') = releasedPages (host w) /\
  processHeap (host w') = processHeap (host w) /\
  (forall a, a < block \/ block + roundUp size sizeof_size_t <= a ->
             bytes w' a = bytes w a) /\
  (DEBUG cfg = false -> forall a, bytes w' a = bytes w a).
Proof.
  intros Hinit Hsize Hfit Hret.
  apply allocateMemory_returned in Hret; [|assumption|lia].
  unfold fits_window in Hfit. apply Z.leb_le in Hfit.
  destruct (serve_returned cfg _ _ block w' Hret)
    as [_ [(_ & -> & ->)|(Hgrow & _)]];
    rewrite this_after_probe in *; [|lia].
  rewrite this_stamped, pages_stamped, host_stamped. simpl.
  rewrite this_after_probe, pages_after_probe, pageReplies_after_probe,
    released_after_probe, processHeap_after_probe.
  repeat (split; [reflexivity|]).
  unfold stamped, rounded. split.
  - intros a Ha. destruct (DEBUG cfg); simpl; rewrite bytes_after_probe;
      [|reflexivity].
    destruct (Z.leb_spec (m_nextFreeByte (this w)) a); simpl; [|reflexivity].
    destruct (Z.ltb_spec a (m_nextFreeByte (this w) + roundUp size sizeof_size_t));
      [lia|reflexivity].
  - intros -> a. simpl. now rewrite bytes_after_probe.
Qed.

Lemma window_call_changes_cursor_and_block_witness :
  exists block w',
    allocateMemory (debug_build 0) 13 one_page_world = Return block w' /\
    m_nextFreeByte (this w') = 65592 /\
    bytes w' (block - 1) = bytes one_page_world (block - 1) /\
    bytes w' (block + 16) = bytes one_page_world (block + 16).
Proof.
  pose (w' := outcome_world (allocateMemory (debug_build 0) 13 one_page_world)).
  exists 65576, w'.
  assert (Hrun : allocateMemory (debug_build 0) 13 one_page_world = Return 65576 w')
    by reflexivity.
  assert (Hinit : m_memoryManager (this one_page_world) <> nullptr) by discriminate.
  destruct (window_call_changes_cursor_and_block (debug_build 0) 13 one_page_world
              65576 w' Hinit ltac:(lia) eq_refl Hrun)
    as (_ & Hthis & _ & _ & _ & _ & Hframe & _).
  split; [exact Hrun|]. split; [rewrite Hthis; reflexivity|].
  split; apply Hframe.
  - left. lia.
  - right. vm_compute. discriminate.
Defined.




(** ** Allocating in a row *)

Lemma total_rounded_nonneg sizes : 0 <= total (map rounded sizes).
Proof.
  induction sizes as [|s rest IH]; simpl; [lia|].
  pose proof (roundUp_range s) as Hr. unfold rounded, Word.in_range in *. lia.
Qed.

(** The run of a row of requests that fit the window together. *)
Lemma allocateEach_run cfg sizes :
  injecting cfg = false ->
  Forall (fun size => 0 < size) sizes ->
  forall w,
    m_memoryManager (this w) <> nullptr ->
    Word.in_range (m_nextFreeByte (this w)) ->
    Word.in_range (m_lastFreeByte (this w)) ->
    m_nextFreeByte (this w) + total (map rounded sizes) <= m_lastFreeByte (this w) ->
    exists w',
      allocateEach cfg sizes w =
        Return (laid_out (m_nextFreeByte (this w)) (map rounded sizes)) w' /\
      this w' = set_nextFreeByte (this w)
                  (m_nextFreeByte (this w) + total (map rounded sizes)) /\
      pages w' = pages w /\
      host w' = host w.
Proof.
  intros Hoff Hpos. induction Hpos as [|size rest Hsize Hrest IH];
    intros w Hinit Hcur Hlim Hfit.
  - exists w. simpl. rewrite Z.add_0_r. repeat split; try reflexivity.
    destruct (this w). reflexivity.
  - simpl in Hfit.
    pose proof (total_rounded_nonneg rest) as Hnn.
    pose proof (roundUp_range size) as Hr. fold (rounded size) in Hr.
    destruct (window_step cfg size w) as [Hsum Hrun]; try assumption;
      [now apply fault_fires_off|lia|].
    rewrite host_after_probe in Hrun by assumption.
    set (w1 := stamped cfg (m_nextFreeByte (this w)) (rounded size)
                 (advanced w (rounded size))) in *.
    assert (Hthis1 : this w1 = set_nextFreeByte (this w)
                                 (m_nextFreeByte (this w) + rounded size)).
    { unfold w1. rewrite this_stamped. unfold advanced. simpl. now rewrite Hsum. }
    destruct (IH w1) as (w' & Hrest' & Hthis' & Hpages' & Hhost').
    + rewrite Hthis1. exact Hinit.
    + rewrite Hthis1. simpl. unfold Word.in_range in *. lia.
    + rewrite Hthis1. exact Hlim.
    + rewrite Hthis1. simpl. lia.
    + exists w'. simpl. unfold bind at 1. rewrite Hrun.
      unfold bind at 1. rewrite Hrest'. unfold ret.
      rewrite Hthis1 in *. simpl in *.
      split; [reflexivity|]. split; [|split].
      * rewrite Hthis'. unfold set_nextFreeByte. simpl. f_equal. lia.
      * rewrite Hpages'. unfold w1. now rewrite pages_stamped.
      * rewrite Hhost'. unfold w1. now rewrite host_stamped.
Qed.

(** X6: with fault injection off, a row of requests of sizes above zero
    whose rounded sizes fit the window together is served from the window
    one after the other: the blocks are laid end to end from the cursor,
    the cursor ends behind the last one, and neither the limit nor the
    pages nor the backing store are touched. *)
Theorem row_served_from_window cfg sizes w :
  injecting cfg = false ->
  Forall (fun size => 0 < size) sizes ->
  m_memoryManager (this w) <> nullptr ->
  Word.in_range (m_nextFreeByte (this w)) ->
  Word.in_range (m_lastFreeByte (this w)) ->
  m_nextFreeByte (this w) + total (map rounded sizes) <= m_lastFreeByte (this w) ->
  exists w',
    allocateEach cfg sizes w =
      Return (laid_out (m_nextFreeByte (this w)) (map rounded sizes)) w' /\
    m_nextFreeByte (this w') = m_nextFreeByte (this w) + total (map rounded sizes) /\
    m_lastFreeByte (this w') = m_lastFreeByte (this w) /\
    m_lastPage (this w') = m_lastPage (this w) /\
    pages w' = pages w /\
    host w' = host w.
Proof.
  intros Hoff Hpos Hinit Hcur Hlim Hfit.
  destruct (allocateEach_run cfg sizes Hoff Hpos w Hinit Hcur Hlim Hfit)
    as (w' & Hrun & Hthis & Hpages & Hhost).
  exists w'. rewrite Hthis. simpl. repeat split; assumption.
Qed.

Lemma row_served_from_window_witness :
  exists w',
    allocateEach release_build [13; 40; 1] one_page_world =
      Return [65576; 65592; 65632] w' /\
    m_nextFreeByte (this w') = 65640.
Proof.
  destruct (row_served_from_window release_build [13; 40; 1] one_page_world)
    as (w' & Hrun & Hcursor & _).
  - reflexivity.
  - repeat constructor.
  - discriminate.
  - unfold Word.in_range, Word.modulus; simpl; lia.
  - unfold Word.in_range, Word.modulus; simpl; lia.
  - vm_compute. discriminate.
  - exists w'. split; [exact Hrun|exact Hcursor].
Defined.

Lemma laid_out_length start lengths : length (laid_out start lengths) = length lengths.
Proof.
  revert start. induction lengths as [|n rest IH]; intros start; simpl; auto.
Qed.

(** Every block of a layout starts at or after the start and ends at or
    before the end of the whole. *)
Lemma laid_out_inside lengths :
  Forall (fun n => 0 <= n) lengths ->
  forall start i b n,
    nth_error (laid_out start lengths) i = Some b ->
    nth_error lengths i = Some n ->
    start <= b /\ b + n <= start + total lengths.
Proof.
  intros Hnn. induction Hnn as [|m rest Hm Hrest IH]; intros start i b n Hb Hn.
  - destruct i; discriminate.
  - assert (Htot : 0 <= total rest).
    { clear -Hrest. induction Hrest; simpl; lia. }
    destruct i as [|i]; simpl in *.
    + injection Hb as <-. injection Hn as <-. lia.
    + destruct (IH _ _ _ _ Hb Hn). lia.
Qed.

(** A block of a layout ends at or before every later block starts. *)
Lemma laid_out_ordered lengths :
  Forall (fun n => 0 <= n) lengths ->
  forall start i j bi bj n,
    (i < j)%nat ->
    nth_error (laid_out start lengths) i = Some bi ->
    nth_error lengths i = Some n ->
    nth_error (laid_out start lengths) j = Some bj ->
    bi + n <= bj.
Proof.
  intros Hnn. induction Hnn as [|m rest Hm Hrest IH];
    intros start i j bi bj n Hij Hbi Hn Hbj.
  - destruct i; discriminate.
  - destruct j as [|j]; [lia|].
    destruct i as [|i]; simpl in *.
    + injection Hbi as <-. injection Hn as <-.
      assert (exists n', nth_error rest j = Some n') as (n' & Hn').
      { destruct (nth_error rest j) eqn:E; eauto.
        apply nth_error_None in E.
        assert (nth_error (laid_out (start + m) rest) j <> None) by congruence.
        apply nth_error_Some in H. rewrite laid_out_length in H. lia. }
      destruct (laid_out_inside rest Hrest _ _ _ _ Hbj Hn'). lia.
    + apply (IH (start + m) i j bi bj n); auto. lia.
Qed.

(** X7: in such a row no two blocks overlap and none leaves the window:
    each block starts at or after the old cursor and ends, with its whole
    rounded size, at or before the limit and at or before the next block
    starts; and where the size is not one of the last seven, the rounded
    size covers the size asked for. *)
Theorem row_blocks_do_not_overlap cfg sizes w blocks w' :
  injecting cfg = false ->
  Forall (fun size => 0 < size) sizes ->
  m_memoryManager (this w) <> nullptr ->
  Word.in_range (m_nextFreeByte (this w)) ->
  Word.in_range (m_lastFreeByte (this w)) ->
  m_nextFreeByte (this w) + total (map rounded sizes) <= m_lastFreeByte (this w) ->
  allocateEach cfg sizes w = Return blocks w' ->
  length blocks = length sizes /\
  (forall i b size,
     nth_error blocks i = Some b -> nth_error sizes i = Some size ->
     m_nextFreeByte (this w) <= b /\
     b + rounded size <= m_lastFreeByte (this w) /\
     (size <= Word.modulus - sizeof_size_t -> b + size <= b + rounded size)) /\
  (forall i j bi bj size,
     (i < j)%nat ->
     nth_error blocks i = Some bi -> nth_error sizes i = Some size ->
     nth_error blocks j = Some bj ->
     bi + rounded size <= bj).
Proof.
  intros Hoff Hpos Hinit Hcur Hlim Hfit Hret.
  destruct (allocateEach_run cfg sizes Hoff Hpos w Hinit Hcur Hlim Hfit)
    as (w0 & Hrun & _).
  rewrite Hrun in Hret. injection Hret as <- <-.
  assert (Hnn : Forall (fun n => 0 <= n) (map rounded sizes)).
  { apply Forall_forall. intros n Hin. apply in_map_iff in Hin.
    destruct Hin as (s & <- & _). apply roundUp_range. }
  split; [now rewrite laid_out_length, length_map|]. split.
  - intros i b size Hb Hs.
    assert (Hn : nth_error (map rounded sizes) i = Some (rounded size))
      by (rewrite nth_error_map, Hs; reflexivity).
    destruct (laid_out_inside _ Hnn _ _ _ _ Hb Hn) as [Hlo Hhi].
    split; [exact Hlo|]. split; [lia|].
    intros Hle. rewrite Forall_forall in Hpos.
    assert (0 < size) by (apply Hpos; eapply nth_error_In; eauto).
    destruct (roundUp_least size) as [[Hge _] _]; [lia|].
    unfold rounded. lia.
  - intros i j bi bj size Hij Hbi Hs Hbj.
    assert (Hn : nth_error (map rounded sizes) i = Some (rounded size))
      by (rewrite nth_error_map, Hs; reflexivity).
    exact (laid_out_ordered _ Hnn _ _ _ _ _ _ Hij Hbi Hn Hbj).
Qed.

Lemma row_blocks_do_not_overlap_witness :
  exists blocks w',
    allocateEach (debug_build 0) [13; 40; 1] one_page_world = Return blocks w' /\
    length blocks = 3%nat.
Proof.
  pose (o := allocateEach (debug_build 0) [13; 40; 1] one_page_world).
  exists [65576; 65592; 65632], (outcome_world o).
  assert (Hrun : allocateEach (debug_build 0) [13; 40; 1] one_page_world =
                 Return [65576; 65592; 65632] (outcome_world o)) by reflexivity.
  split; [exact Hrun|].
  assert (Hinit : m_memoryManager (this one_page_world) <> nullptr) by discriminate.
  assert (Hcur : Word.in_range (m_nextFreeByte (this one_page_world)))
    by (unfold Word.in_range, Word.modulus; simpl; lia).
  assert (Hlim : Word.in_range (m_lastFreeByte (this one_page_world)))
    by (unfold Word.in_range, Word.modulus; simpl; lia).
  assert (Hfit : m_nextFreeByte (this one_page_world) + total (map rounded [13; 40; 1])
                 <= m_lastFreeByte (this one_page_world))
    by (vm_compute; discriminate).
  assert (Hpos : Forall (fun size => 0 < size) [13; 40; 1]) by (repeat constructor).
  destruct (row_blocks_do_not_overlap (debug_build 0) [13; 40; 1] one_page_world _ _
              eq_refl Hpos Hinit Hcur Hlim Hfit Hrun) as [Hlen _].
  exact Hlen.
Defined.

(** X8: the test of line 128 is "past the limit", not "at the limit": a
    request whose rounded size is exactly what is left of the window is
    served from it and leaves the cursor on the limit; after that no
    request of a size above zero (and not one of the last seven) fits,
    as long as the limit plus its rounded size stays inside the address
    space. *)
Theorem exact_fit_empties_window cfg size w :
  m_memoryManager (this w) <> nullptr ->
  0 < size ->
  fault_fires cfg w = false ->
  Word.in_range (m_nextFreeByte (this w)) ->
  Word.in_range (m_lastFreeByte (this w)) ->
  m_nextFreeByte (this w) + roundUp size sizeof_size_t = m_lastFreeByte (this w) ->
  exists w',
    allocateMemory cfg size w = Return (m_nextFreeByte (this w)) w' /\
    m_nextFreeByte (this w') = m_lastFreeByte (this w') /\
    m_lastFreeByte (this w') = m_lastFreeByte (this w) /\
    (forall size2,
       0 < size2 <= Word.modulus - sizeof_size_t ->
       m_lastFreeByte (this w) + roundUp size2 sizeof_size_t < Word.modulus ->
       fits_window w' size2 = false).
Proof.
  intros Hinit Hsize Hfault Hcur Hlim Hfit.
  destruct (window_step cfg size w) as [Hsum Hrun]; try assumption;
    [unfold rounded; lia|].
  eexists. split; [exact Hrun|].
  unfold fits_window. rewrite this_stamped. simpl.
  rewrite this_after_probe, Hsum. unfold rounded in *. rewrite Hfit.
  split; [reflexivity|]. split; [reflexivity|].
  intros size2 Hsize2 Hroom.
  destruct (roundUp_least size2) as [[Hlo _] _];
    [unfold Word.modulus, sizeof_size_t; lia|].
  apply Z.leb_gt. rewrite add_exact; [lia|].
  unfold Word.in_range in *. lia.
Qed.

Lemma exact_fit_empties_window_witness :
  exists w',
    allocateMemory release_build 65496 one_page_world = Return 65576 w' /\
    m_nextFreeByte (this w') = 131072 /\
    fits_window w' 1 = false.
Proof.
  destruct (exact_fit_empties_window release_build 65496 one_page_world)
    as (w' & Hrun & Hcursor & Hlimit & Hfull).
  - discriminate.
  - lia.
  - reflexivity.
  - unfold Word.in_range, Word.modulus; simpl; lia.
  - unfold Word.in_range, Word.modulus; simpl; lia.
  - reflexivity.
  - exists w'. split; [exact Hrun|]. split.
    + rewrite Hcursor, Hlimit. reflexivity.
    + apply Hfull; [unfold Word.modulus, sizeof_size_t; lia|].
      vm_compute. reflexivity.
Defined.

(** X9: an arena whose window is null serves nothing from it: with no
    injected fault, every request of a size above zero that is not one of
    the last seven goes to [allocateNewPage], asked to throw, with the
    rounded size, and the call ends as that call ends, the DEBUG stamp
    added to a returned block. *)
Theorem null_window_goes_to_growth cfg size w :
  m_memoryManager (this w) <> nullptr ->
  0 < size <= Word.modulus - sizeof_size_t ->
  fault_fires cfg w = false ->
  m_nextFreeByte (this w) = nullptr ->
  m_lastFreeByte (this w) = nullptr ->
  fits_window w size = false /\
  allocateMemory cfg size w =
    stamp_returned cfg (rounded size)
      (allocateNewPage cfg (rounded size) true
         (advanced (after_probe cfg w) (rounded size))).
Proof.
  intros Hinit Hsize Hfault Hcur Hlim.
  destruct (roundUp_least size) as [[Hlo Hhi] _]; [lia|].
  pose proof (roundUp_range size) as Hr.
  assert (Hadd : Word.add nullptr (rounded size) = rounded size).
  { unfold Word.add, nullptr, rounded. simpl. now apply wrap_small. }
  split.
  - unfold fits_window. rewrite Hcur, Hlim, Hadd.
    apply Z.leb_gt. unfold rounded, nullptr. lia.
  - rewrite allocateMemory_steps by (auto; lia).
    rewrite faultInjection_passes by assumption.
    unfold serve, bump. rewrite this_after_probe, Hcur, Hlim, Hadd.
    destruct (Z.ltb_spec nullptr (rounded size)) as [_|Hge]; [reflexivity|].
    unfold rounded, nullptr in Hge. lia.
Qed.

Lemma null_window_goes_to_growth_witness :
  fits_window (fresh_world [65536] []) 8 = false /\
  returned (allocateMemory release_build 8 (fresh_world [65536] [])) = Some 65568.
Proof.
  destruct (null_window_goes_to_growth release_build 8 (fresh_world [65536] []))
    as [Hfit Hrun].
  - discriminate.
  - unfold Word.modulus, sizeof_size_t. lia.
  - reflexivity.
  - reflexivity.
  - reflexivity.
  - split; [exact Hfit|]. rewrite Hrun. reflexivity.
Defined.
